(** * argparse: matching, consumption, binding and usage of one option

    A shallow embedding of [argument.go] (package [argparse]): the [arg]
    struct and its methods [check], [reduce], [parse], [name] and [usage],
    followed by the properties of these methods.

    Go strings are byte sequences and are modelled by [string] (a list of
    8-bit characters); Go's [int] is the 64-bit signed integer, modelled by
    [Z] with its wrap-around written out where the code adds. *)

From Stdlib Require Import ZArith Ascii Lia Bool.
From stdpp Require Import base list strings.

Local Open Scope Z_scope.

(* ================================================================== *)
(** ** Go builtins and the [strings] / [fmt] functions the code calls   *)
(* ================================================================== *)

Module GoString.

(** [len(s)] *)
Definition len (s : string) : Z := Z.of_nat (String.length s).

(** [s[i]], when [i] is in range. *)
Definition at_ (s : string) (i : nat) : option ascii := String.get i s.

(** [s[i] != c]; the code evaluates it only behind a length test that puts
    [i] in range, and the out-of-range case is given the value [false]. *)
Definition byte_ne (s : string) (i : nat) (c : ascii) : bool :=
  match at_ s i with
  | Some b => negb (Ascii.eqb b c)
  | None => false
  end.

(** [s[i:]], for [i <= len(s)] (the code slices only behind a length test). *)
Fixpoint from (i : nat) (s : string) : string :=
  match i, s with
  | O, _ => s
  | S i', String _ s' => from i' s'
  | S _, EmptyString => EmptyString
  end.

(** [strings.HasPrefix(s, prefix)] *)
Definition HasPrefix (s prefix : string) : bool := String.prefix prefix s.

(** [strings.Contains(s, substr)]: [substr] starts at some offset of [s]. *)
Fixpoint Contains (s substr : string) : bool :=
  HasPrefix s substr ||
  match s with
  | EmptyString => false
  | String _ s' => Contains s' substr
  end.

(** [strings.Replace(s, old, "", -1)], the one way the code calls
    [strings.Replace]: with [old] empty the call returns [s] ([old == new]);
    otherwise it scans [s] from the left, drops the leftmost occurrence of
    [old], and goes on behind it.  [skip] counts the bytes of an occurrence
    that are still to be dropped. *)
Fixpoint remove_scan (old : string) (skip : nat) (s : string) : string :=
  match s with
  | EmptyString => EmptyString
  | String c s' =>
      match skip with
      | S k => remove_scan old k s'
      | O =>
          if HasPrefix s old
          then remove_scan old (Nat.pred (String.length old)) s'
          else String c (remove_scan old O s')
      end
  end.

Definition Replace_by_empty (s old : string) : string :=
  match old with
  | EmptyString => s
  | _ => remove_scan old O s
  end.

(** [strings.Join(elems, sep)] *)
Definition Join (elems : list string) (sep : string) : string :=
  String.concat sep elems.

(** What [fmt] prints for a [[]string] under [%v]: the elements separated
    by spaces, in square brackets. *)
Definition fmt_v (l : list string) : string :=
  "[" +:+ String.concat " " l +:+ "]".

(** The double-quote character. *)
Definition dquote : string := String (ascii_of_nat 34) EmptyString.

End GoString.

Import GoString.

(* ================================================================== *)
(** ** 64-bit [int] arithmetic                                          *)
(* ================================================================== *)

Definition max_int : Z := 2 ^ 63 - 1.
Definition min_int : Z := - 2 ^ 63.

(** The value of a mathematical integer once stored in an [int]. *)
Definition wrap (z : Z) : Z := (z + 2 ^ 63) mod 2 ^ 64 - 2 ^ 63.

(** [a + b] on [int]. *)
Definition int_add (a b : Z) : Z := wrap (a + b).

(* ================================================================== *)
(** ** The data model                                                   *)
(* ================================================================== *)

(** An [error] value is modelled by the text its [Error()] method returns. *)
Definition error : Type := string.

(** An [os.File], as an opaque handle. *)
Record File : Type := { fd : Z }.

(** Modelled from the spec: the [Options] struct is declared outside
    [argument.go]; the methods read its [Required] flag and call its
    [Validate] function, which may be nil.  A validator is a function from
    the argument slice to an error or nil. *)
Record Options : Type := {
  Required : bool;
  Validate : option (list string -> option error)
}.

(** Modelled from the spec: the [command] struct is declared outside
    [argument.go]; the methods only call [Usage()] on the owning command,
    which returns the help text of that scope. *)
Record command : Type := { Usage : string }.

(** The [result interface{}] field holds a pointer; the methods dispatch on
    its dynamic type and write through it.  A slot is that dynamic type
    together with the value currently stored behind the pointer.  For a
    pointer of any other type, [rendered] is what [fmt] prints for it under
    the verb [%t]. *)
Inductive slot : Type :=
| HelpSlot                            (* *help *)
| BoolSlot (v : bool)                 (* *bool *)
| StringSlot (v : string)             (* *string *)
| FileSlot (v : File)                 (* *os.File *)
| StringListSlot (v : list string)    (* *[]string *)
| OtherSlot (rendered : string).

Record arg : Type := {
  result : slot;                    (* Pointer to the resulting value *)
  opts : option Options;            (* Options *)
  sname : string;                   (* Short name (in parser will start with "-" *)
  lname : string;                   (* Long name (in parser will start with "--" *)
  size : Z;                         (* Size defines how many args after match will need to be consumed *)
  unique : bool;                    (* Specifies whether flag should be present only ones *)
  parsed : bool;                    (* Specifies whether flag has been parsed already *)
  fileFlag : Z;                     (* File mode to open file with *)
  filePerm : Z;                     (* File permissions to set a file *)
  selector : option (list string);  (* Used in Selector type to allow to choose only one from list of options *)
  parent : command                  (* Used to get access to specific command *)
}.

(** [o.result.(type)] is [*bool]. *)
Definition is_bool (o : arg) : bool :=
  match result o with
  | BoolSlot _ => true
  | _ => false
  end.

(** A call either returns a value, or prints a text and ends the process
    ([fmt.Print(helpText); os.Exit(0)]). *)
Inductive outcome (A : Type) : Type :=
| Exits (printed : string)
| Returns (a : A).
Arguments Exits {A} printed.
Arguments Returns {A} a.

(* ================================================================== *)
(** ** [check]                                                          *)
(* ================================================================== *)

(** [len(argument) > 2 && strings.HasPrefix(argument, "--") && argument[2] != '-'] *)
Definition long_form (argument : string) : bool :=
  (2 <? len argument) && HasPrefix argument "--" && byte_ne argument 2 "-".

(** [len(argument) > 1 && strings.HasPrefix(argument, "-") && argument[1] != '-'] *)
Definition short_form (argument : string) : bool :=
  (1 <? len argument) && HasPrefix argument "-" && byte_ne argument 1 "-".

Definition nonempty (s : string) : bool := negb (String.eqb s "").

Definition check (o : arg) (argument : string) : outcome bool :=
  (* Shortcut to showing help *)
  if String.eqb argument "-h" || String.eqb argument "--help" then
    Exits (Usage (parent o))
  else
    (* Check for long name only if not empty *)
    if nonempty (lname o) && long_form argument
       && String.eqb (from 2 argument) (lname o)
    then Returns true
    else
      (* Check for short name only if not empty *)
      if nonempty (sname o) && short_form argument then
        match result o with
        | BoolSlot _ =>
            (* For flags we allow multiple shorthand in one *)
            if Contains (from 1 argument) (sname o)
            then Returns true else Returns false
        | _ =>
            (* For all other types it must be separate argument *)
            if String.eqb (from 1 argument) (sname o)
            then Returns true else Returns false
        end
      else Returns false.

(* ================================================================== *)
(** ** The argument slice, shared with the caller                       *)
(* ================================================================== *)

(** [reduce] writes into the caller's slice through [args *[]string].  A
    computation on the slice takes its current contents and gives back the
    contents it leaves, with [Some] result when it returns and [None] when
    an index is out of range (a run-time panic, which leaves the slice as
    the writes before it made it). *)
Module Slice.

Definition M (A : Type) : Type := list string -> option A * list string.

Definition ret {A : Type} (a : A) : M A := fun s => (Some a, s).

Definition bind {A B : Type} (m : M A) (k : A -> M B) : M B :=
  fun s =>
    match m s with
    | (Some a, s') => k a s'
    | (None, s') => (None, s')
    end.

Definition in_range (i : Z) (s : list string) : bool :=
  (0 <=? i) && (i <? Z.of_nat (length s)).

(** reading [args[i]] through the pointer *)
Definition load (i : Z) : M string :=
  fun s => if in_range i s then (s !! Z.to_nat i, s) else (None, s).

(** writing [args[i] = v] through the pointer *)
Definition store (i : Z) (v : string) : M unit :=
  fun s => if in_range i s then (Some tt, <[Z.to_nat i := v]> s) else (None, s).

End Slice.

Import Slice.

Notation "x <- m ;; k" := (Slice.bind m (fun x => k))
  (at level 100, m at next level, right associativity).
Notation "m ;;; k" := (Slice.bind m (fun _ => k))
  (at level 100, right associativity).

(* ================================================================== *)
(** ** [reduce]                                                         *)
(* ================================================================== *)

(** [n] rounds of the loop body, which blanks [args[i]] and increments [i]. *)
Fixpoint blank_from (n : nat) (i : Z) : M unit :=
  match n with
  | O => ret tt
  | S n' => store i "" ;;; blank_from n' (i + 1)
  end.

(** The loop [for i := position; i < bound; i++] blanking [args[i]]: the
    body runs [bound - position] times when that is positive and not at all
    otherwise; [i] stays below [bound], so [i++] does not wrap. *)
Definition blank_until (position bound : Z) : M unit :=
  blank_from (Z.to_nat (bound - position)) position.

Definition reduce (o : arg) (position : Z) : M unit :=
  argument <- load position ;;
  (* Check for long name only if not empty *)
  (if nonempty (lname o) && long_form argument
      && String.eqb (from 2 argument) (lname o)
   then blank_until position (int_add position (size o))
   else ret tt) ;;;
  (* Check for short name only if not empty *)
  if nonempty (sname o) && short_form argument then
    match result o with
    | BoolSlot _ =>
        (* For flags we allow multiple shorthand in one *)
        if Contains (from 1 argument) (sname o) then
          store position (Replace_by_empty argument (sname o)) ;;;
          current <- load position ;;
          if String.eqb current "-" then store position "" else ret tt
        else ret tt
    | _ =>
        (* For all other types it must be separate argument *)
        if String.eqb (from 1 argument) (sname o)
        then blank_until position (int_add position (size o))
        else ret tt
    end
  else ret tt.

(* ================================================================== *)
(** ** [name] and [usage]                                               *)
(* ================================================================== *)

Definition name (o : arg) : string :=
  if String.eqb (lname o) "" then "-" +:+ sname o
  else if String.eqb (sname o) "" then "--" +:+ lname o
  else "-" +:+ sname o +:+ "|" +:+ "--" +:+ lname o.

(** [o.opts == nil || o.opts.Required == false] *)
Definition optional (o : arg) : bool :=
  match opts o with
  | None => true
  | Some op => negb (Required op)
  end.

Definition usage (o : arg) : string :=
  let result0 := name o in
  let result1 :=
    match result o with
    | BoolSlot _ => result0
    | StringSlot _ =>
        match selector o with
        | Some sel => result0 +:+ " (" +:+ Join sel "|" +:+ ")"
        | None => result0 +:+ " " +:+ dquote +:+ "<value>" +:+ dquote
        end
    | FileSlot _ => result0 +:+ " <file>"
    | StringListSlot _ => result0 +:+ " " +:+ dquote +:+ "<string>" +:+ dquote
    | _ => result0
    end in
  if optional o then "[" +:+ result1 +:+ "]" else result1.

(* ================================================================== *)
(** ** [parse]                                                          *)
(* ================================================================== *)

(** Writing [v] through [o.result] and setting [o.parsed = true]: the
    definition after a successful binding of [v]. *)
Definition bound_to (o : arg) (v : slot) : arg :=
  {| result := v; opts := opts o; sname := sname o; lname := lname o;
     size := size o; unique := unique o; parsed := true;
     fileFlag := fileFlag o; filePerm := filePerm o;
     selector := selector o; parent := parent o |}.

(** The validation step: [nil] when there is no validator, else its verdict. *)
Definition validation (o : arg) (args : list string) : option error :=
  match opts o with
  | Some op =>
      match Validate op with
      | Some validate => validate args
      | None => None
      end
  | None => None
  end.

(** [args[0]], read only behind the tests that put index 0 in range. *)
Definition args0 (args : list string) : string := default "" (args !! 0%nat).

(** The error texts of [parse]. *)
Definition err_duplicate (o : arg) : error :=
  "[" +:+ name o +:+ "] can only be present once".
Definition err_no_string (o : arg) : error :=
  "[" +:+ name o +:+ "] must be followed by a string".
Definition err_no_path (o : arg) : error :=
  "[" +:+ name o +:+ "] must be followed by a path to file".
Definition err_too_many (o : arg) : error :=
  "[" +:+ name o +:+ "] followed by too many arguments".
Definition err_bad_value (o : arg) (sel : list string) : error :=
  "bad value for [" +:+ name o +:+ "]. Allowed values are " +:+ fmt_v sel.
Definition err_unsupported (rendered : string) : error :=
  "unsupported type [" +:+ rendered +:+ "]".

(** The selector loop: [match] is set when some entry equals the token. *)
Definition selects (sel : list string) (token : string) : bool :=
  existsb (String.eqb token) sel.

Section Binding.

(** [os.OpenFile(name, flag, perm)]: the opened file, or the error. *)
Variable os_OpenFile : string -> Z -> Z -> File + error.

(** A returning call gives the error (or nil) and the definition as the
    call leaves it. *)
Definition parse (o : arg) (args : list string) : outcome (option error * arg) :=
  (* If unique do not allow more than one time *)
  if unique o && parsed o then Returns (Some (err_duplicate o), o)
  else
    (* If validation function provided -- execute, on error return it *)
    match validation o args with
    | Some err => Returns (Some err, o)
    | None =>
        match result o with
        | HelpSlot => Exits (Usage (parent o))
        | BoolSlot _ => Returns (None, bound_to o (BoolSlot true))
        | StringSlot _ =>
            if Z.of_nat (length args) <? 1 then Returns (Some (err_no_string o), o)
            else if 1 <? Z.of_nat (length args) then Returns (Some (err_too_many o), o)
            else
              match selector o with
              | Some sel =>
                  if selects sel (args0 args)
                  then Returns (None, bound_to o (StringSlot (args0 args)))
                  else Returns (Some (err_bad_value o sel), o)
              | None => Returns (None, bound_to o (StringSlot (args0 args)))
              end
        | FileSlot _ =>
            if Z.of_nat (length args) <? 1 then Returns (Some (err_no_path o), o)
            else if 1 <? Z.of_nat (length args) then Returns (Some (err_too_many o), o)
            else
              match os_OpenFile (args0 args) (fileFlag o) (filePerm o) with
              | inr err => Returns (Some err, o)
              | inl f => Returns (None, bound_to o (FileSlot f))
              end
        | StringListSlot l =>
            if Z.of_nat (length args) <? 1 then Returns (Some (err_no_string o), o)
            else if 1 <? Z.of_nat (length args) then Returns (Some (err_too_many o), o)
            else Returns (None, bound_to o (StringListSlot (l ++ [args0 args])))
        | OtherSlot rendered => Returns (Some (err_unsupported rendered), o)
        end
    end.

End Binding.

(** The token at [position], when the index is in range. *)
Definition token_at (args : list string) (position : Z) : option string :=
  fst (load position args).

(** The number of follow-on tokens a match consumes: [reduce] erases [size]
    tokens from the match position on, the option token itself and
    [size - 1] value tokens behind it. *)
Definition arity (o : arg) : Z := size o - 1.

(** Calling [parse] on one instance with one argument slice after the other:
    the errors (or nil) the calls return, up to a call that ends the
    process. *)
Fixpoint parse_each (os_OpenFile : string -> Z -> Z -> File + error)
    (o : arg) (calls : list (list string)) : list (option error) :=
  match calls with
  | [] => []
  | args :: rest =>
      match parse os_OpenFile o args with
      | Exits _ => []
      | Returns (err, o') => err :: parse_each os_OpenFile o' rest
      end
  end.

(* ================================================================== *)
(** ** Vocabulary of the properties                                     *)
(* ================================================================== *)

(** [args'] is [args] with the [count] tokens from [position] on blanked and
    every other token as it was. *)
Definition blanks (position count : Z) (args args' : list string) : Prop :=
  length args' = length args /\
  (forall j : Z, position <= j < position + count ->
     token_at args' j = Some "") /\
  (forall j : Z, ~ (position <= j < position + count) ->
     token_at args' j = token_at args j).

(** What [reduce] leaves of a cluster: the cluster without the short name,
    or the empty token when only the marker would remain. *)
Definition cluster_rest (argument short : string) : string :=
  let removed := Replace_by_empty argument short in
  if String.eqb removed "-" then "" else removed.

(** [s] without the bytes equal to [x]. *)
Fixpoint without (x : ascii) (s : string) : string :=
  match s with
  | EmptyString => EmptyString
  | String c s' =>
      if Ascii.eqb c x then without x s' else String c (without x s')
  end.

(** A computation on the slice keeps the length of the slice and every slot
    below [lo], whether it returns or panics. *)
Definition keeps_below {A : Type} (lo : Z) (m : M A) : Prop :=
  forall s : list string,
    length (m s).2 = length s /\
    forall j : nat, Z.of_nat j < lo -> (m s).2 !! j = s !! j.


(** Two slots of one dynamic type. *)
Definition same_kind (a b : slot) : bool :=
  match a, b with
  | HelpSlot, HelpSlot => true
  | BoolSlot _, BoolSlot _ => true
  | StringSlot _, StringSlot _ => true
  | FileSlot _, FileSlot _ => true
  | StringListSlot _, StringListSlot _ => true
  | OtherSlot r, OtherSlot r' => String.eqb r r'
  | _, _ => false
  end.

(** The kinds that bind one value token. *)
Definition takes_value (o : arg) : bool :=
  match result o with
  | StringSlot _ | FileSlot _ | StringListSlot _ => true
  | _ => false
  end.

Definition is_file (o : arg) : bool :=
  match result o with
  | FileSlot _ => true
  | _ => false
  end.

(** Calling [parse] on one instance with one argument slice after the other:
    the errors (or nil) of the calls and the definition they leave, unless
    one of the calls ends the process. *)
Fixpoint parse_all (os_OpenFile : string -> Z -> Z -> File + error)
    (o : arg) (calls : list (list string))
    : outcome (list (option error) * arg) :=
  match calls with
  | [] => Returns ([], o)
  | args :: rest =>
      match parse os_OpenFile o args with
      | Exits text => Exits text
      | Returns (err, o') =>
          match parse_all os_OpenFile o' rest with
          | Exits text => Exits text
          | Returns (errs, o'') => Returns (err :: errs, o'')
          end
      end
  end.

(** What a Boolean flag with the one-byte short name [x] leaves of a token
    that is empty or a marker followed by a cluster: the cluster without
    [x] behind the marker, or the empty token when no byte is left. *)
Definition strike (x : ascii) (token : string) : string :=
  match token with
  | EmptyString => EmptyString
  | String marker body =>
      if Contains body (String x "") then
        match without x body with
        | EmptyString => EmptyString
        | rest => String marker rest
        end
      else token
  end.

(** A token as the flags of a cluster leave and find it: empty, or the
    marker followed by a cluster that holds no marker. *)
Definition cluster_token (token : string) : Prop :=
  token = "" \/
  exists body, token = String "-" body /\ body <> "" /\
               Contains body "-" = false.

(* ================================================================== *)
(** ** Sample definitions                                               *)
(* ================================================================== *)

(** An environment in which no file can be opened. *)
Definition no_files : string -> Z -> Z -> File + error :=
  fun _ _ _ => inr "open: no such file or directory".

Definition root : command := {| Usage := "usage: prog [-h|--help]" |}.

(** A string option [-o|--out] that consumes the flag and one value. *)
Definition option_out : arg :=
  {| result := StringSlot ""; opts := None; sname := "o"; lname := "out";
     size := 2; unique := false; parsed := false; fileFlag := 0;
     filePerm := 0; selector := None; parent := root |}.

(** The same option, unique and bound once already. *)
Definition option_out_seen : arg :=
  {| result := StringSlot "a.txt"; opts := None; sname := "o"; lname := "out";
     size := 2; unique := true; parsed := true; fileFlag := 0;
     filePerm := 0; selector := None; parent := root |}.

(** The same option, marked required. *)
Definition option_out_required : arg :=
  {| result := StringSlot "";
     opts := Some {| Required := true; Validate := None |};
     sname := "o"; lname := "out";
     size := 2; unique := false; parsed := false; fileFlag := 0;
     filePerm := 0; selector := None; parent := root |}.

(** A selector [-m|--mode] with two allowed values. *)
Definition option_mode : arg :=
  {| result := StringSlot ""; opts := None; sname := "m"; lname := "mode";
     size := 2; unique := true; parsed := false; fileFlag := 0;
     filePerm := 0; selector := Some ["fast"; "slow"]; parent := root |}.

(** A Boolean flag [-x]. *)
Definition flag_x : arg :=
  {| result := BoolSlot false; opts := None; sname := "x"; lname := "";
     size := 1; unique := true; parsed := false; fileFlag := 0;
     filePerm := 0; selector := None; parent := root |}.

(** The help option [-h|--help]. *)
Definition option_help : arg :=
  {| result := HelpSlot; opts := None; sname := "h"; lname := "help";
     size := 1; unique := true; parsed := false; fileFlag := 0;
     filePerm := 0; selector := None; parent := root |}.

(** An option whose result is of a type [parse] does not know (an [int]
    value 7). *)
Definition option_other : arg :=
  {| result := OtherSlot "%!t(int=7)"; opts := None;
     sname := "n"; lname := "num";
     size := 2; unique := false; parsed := false; fileFlag := 0;
     filePerm := 0; selector := None; parent := root |}.

(** A second Boolean flag, [-y]. *)
Definition flag_y : arg :=
  {| result := BoolSlot false; opts := None; sname := "y"; lname := "";
     size := 1; unique := true; parsed := false; fileFlag := 0;
     filePerm := 0; selector := None; parent := root |}.

(** A Boolean flag with both names, [-s|--quiet]. *)
Definition flag_quiet : arg :=
  {| result := BoolSlot false; opts := None; sname := "s"; lname := "quiet";
     size := 1; unique := true; parsed := false; fileFlag := 0;
     filePerm := 0; selector := None; parent := root |}.

(** An accumulating option [-t|--tag] that may be given many times. *)
Definition option_tags : arg :=
  {| result := StringListSlot []; opts := None; sname := "t"; lname := "tag";
     size := 2; unique := false; parsed := false; fileFlag := 0;
     filePerm := 0; selector := None; parent := root |}.

(** An environment in which every file opens, with handle 3. *)
Definition any_file : string -> Z -> Z -> File + error :=
  fun _ _ _ => inl {| fd := 3 |}.

(* ================================================================== *)
(** * Properties                                                        *)
(* ================================================================== *)

(** ** Strings *)

Lemma nonempty_true (s : string) : nonempty s = true <-> s <> "".
Proof.
  unfold nonempty. rewrite negb_true_iff. apply String.eqb_neq.
Qed.

Lemma nonempty_false (s : string) : nonempty s = false <-> s = "".
Proof.
  unfold nonempty. rewrite negb_false_iff. apply String.eqb_eq.
Qed.

Lemma append_cons (c : ascii) (a b : string) :
  String c a +:+ b = String c (a +:+ b).
Proof. reflexivity. Qed.

Lemma append_empty_l (s : string) : "" +:+ s = s.
Proof. reflexivity. Qed.

Lemma append_empty_r (s : string) : s +:+ "" = s.
Proof.
  induction s as [|c s IH]; [done|]. by rewrite append_cons, IH.
Qed.

Lemma append_assoc (a b c : string) : (a +:+ b) +:+ c = a +:+ b +:+ c.
Proof.
  induction a as [|x a IH]; [done|]. by rewrite !append_cons, IH.
Qed.

Lemma length_append (a b : string) :
  String.length (a +:+ b) = (String.length a + String.length b)%nat.
Proof.
  induction a as [|x a IH]; [done|].
  rewrite append_cons. cbn [String.length]. by rewrite IH.
Qed.

Lemma HasPrefix_app (s prefix : string) :
  HasPrefix s prefix = true <-> exists rest, s = prefix +:+ rest.
Proof.
  unfold HasPrefix. revert s.
  induction prefix as [|b p IH]; intros [|a s]; cbn [String.prefix];
    rewrite ?append_empty_l.
  - split; [by exists ""|done].
  - split; [by exists (String a s)|done].
  - split; [discriminate|]. intros [rest Hrest]. discriminate.
  - destruct (Ascii.ascii_dec b a) as [->|Hne].
    + rewrite IH. split; intros [rest Hrest]; exists rest;
        [by subst|by injection Hrest].
    + split; [discriminate|]. intros [rest Hrest]. by injection Hrest.
Qed.

Lemma HasPrefix_marker (s : string) :
  HasPrefix s "-" = true <-> exists rest, s = String "-" rest.
Proof. apply HasPrefix_app. Qed.

Lemma byte_ne_cons (a : ascii) (s : string) (i : nat) (c : ascii) :
  byte_ne (String a s) (S i) c = byte_ne s i c.
Proof. reflexivity. Qed.

Lemma byte_ne_head (a : ascii) (s : string) (c : ascii) :
  byte_ne (String a s) 0 c = true <-> a <> c.
Proof.
  unfold byte_ne, at_. cbn [String.get].
  destruct (Ascii.eqb_spec a c); simpl; split; congruence.
Qed.

(** The shape of a short-form token: the marker, then a byte that is not
    the marker. *)
Lemma short_form_shape (argument : string) :
  short_form argument = true <->
  exists b rest, argument = String "-" (String b rest) /\ b <> "-"%char.
Proof.
  unfold short_form. rewrite !andb_true_iff, HasPrefix_marker. split.
  - intros [[_ [rest ->]] Hb]. rewrite byte_ne_cons in Hb.
    destruct rest as [|b rest]; [discriminate|].
    apply byte_ne_head in Hb. eauto.
  - intros (b & rest & -> & Hb). repeat split; eauto.
    + unfold len. cbn [String.length]. apply Z.ltb_lt. lia.
    + rewrite byte_ne_cons. by apply byte_ne_head.
Qed.

(** The shape of a long-form token: two markers, then a byte that is not the
    marker. *)
Lemma long_form_shape (argument : string) :
  long_form argument = true <->
  exists c rest, argument = String "-" (String "-" (String c rest)) /\ c <> "-"%char.
Proof.
  unfold long_form. rewrite !andb_true_iff, HasPrefix_app. split.
  - intros [[_ [rest ->]] Hc]. change (byte_ne (String "-" (String "-" rest)) 2 "-" = true) in Hc.
    rewrite !byte_ne_cons in Hc.
    destruct rest as [|c rest]; [discriminate|].
    apply byte_ne_head in Hc. eauto.
  - intros (c & rest & -> & Hc). repeat split.
    + unfold len. cbn [String.length]. apply Z.ltb_lt. lia.
    + by exists (String c rest).
    + rewrite !byte_ne_cons. by apply byte_ne_head.
Qed.

(** A short-form token is not a long-form token: its second byte is not the
    marker. *)
Lemma short_form_not_long (argument : string) :
  short_form argument = true -> long_form argument = false.
Proof.
  intros (b & rest & -> & Hb)%short_form_shape.
  destruct (long_form _) eqn:Hl; [|done].
  apply long_form_shape in Hl as (c & rest' & Heq & _). congruence.
Qed.

Lemma long_form_not_short (argument : string) :
  long_form argument = true -> short_form argument = false.
Proof.
  intros Hl. destruct (short_form argument) eqn:Hs; [|done].
  apply short_form_not_long in Hs. congruence.
Qed.

(** ** The slice *)

Lemma token_at_Some (args : list string) (position : Z) (tok : string) :
  token_at args position = Some tok <->
  in_range position args = true /\ args !! Z.to_nat position = Some tok.
Proof.
  unfold token_at, load. destruct (in_range position args); simpl.
  - split; [done|by intros [_ ?]].
  - split; [done|by intros [? _]].
Qed.

Lemma load_token (args : list string) (position : Z) (tok : string) :
  token_at args position = Some tok -> load position args = (Some tok, args).
Proof.
  intros [Hr Hl]%token_at_Some. unfold load. by rewrite Hr, Hl.
Qed.

Lemma in_range_lt (args : list string) (position : Z) :
  in_range position args = true <->
  0 <= position /\ (Z.to_nat position < length args)%nat.
Proof.
  unfold in_range. rewrite andb_true_iff, Z.leb_le, Z.ltb_lt. lia.
Qed.

(** ** [check] and [reduce] on a blanked token *)

Lemma check_blank (o : arg) : check o "" = Returns false.
Proof.
  unfold check. cbn [String.eqb orb].
  change (long_form "") with false. change (short_form "") with false.
  by rewrite !andb_false_r.
Qed.

Lemma reduce_blank (o : arg) (position : Z) (args : list string) :
  token_at args position = Some "" ->
  reduce o position args = (Some tt, args).
Proof.
  intros Htok. unfold reduce, bind. rewrite (load_token _ _ _ Htok).
  change (long_form "") with false. change (short_form "") with false.
  by rewrite !andb_false_r.
Qed.

(** C9: no definition matches the empty token, and [reduce] at a position
    that holds the empty token returns with the slice as it was; a token
    that consumption has blanked is thus never matched or consumed again. *)
Theorem blanked_token_is_inert (o : arg) :
  check o "" = Returns false /\
  forall (position : Z) (args : list string),
    token_at args position = Some "" ->
    reduce o position args = (Some tt, args).
Proof.
  split; [apply check_blank|]. intros. by apply reduce_blank.
Qed.

(** ** [parse] *)

Section BindingFacts.

Variable os_OpenFile : string -> Z -> Z -> File + error.

Lemma bound_to_parsed (o : arg) (v : slot) : parsed (bound_to o v) = true.
Proof. reflexivity. Qed.

Lemma bound_to_name (o : arg) (v : slot) : name (bound_to o v) = name o.
Proof. reflexivity. Qed.

(** A call that returns an error returns the definition as it got it. *)
Lemma parse_error_unchanged (o o' : arg) (args : list string) (e : error) :
  parse os_OpenFile o args = Returns (Some e, o') -> o' = o.
Proof.
  unfold parse. intros H.
  repeat case_match; by simplify_eq.
Qed.

(** A call that returns nil has marked the definition parsed, and has
    changed nothing of it but the slot and that mark. *)
Lemma parse_success_bound (o o' : arg) (args : list string) :
  parse os_OpenFile o args = Returns (None, o') ->
  exists v, o' = bound_to o v.
Proof.
  unfold parse. intros H.
  repeat case_match; simplify_eq; eauto.
Qed.

Lemma parse_duplicate (o : arg) (args : list string) :
  unique o = true -> parsed o = true ->
  parse os_OpenFile o args = Returns (Some (err_duplicate o), o).
Proof. intros Hu Hp. unfold parse. by rewrite Hu, Hp. Qed.

Lemma parse_each_duplicate (o : arg) (calls : list (list string)) :
  unique o = true -> parsed o = true ->
  parse_each os_OpenFile o calls =
    replicate (length calls) (Some (err_duplicate o)).
Proof.
  intros Hu Hp. induction calls as [|args rest IH]; [done|].
  cbn [parse_each length replicate].
  by rewrite parse_duplicate, IH.
Qed.

(** C7: a call of [parse] that returns an error leaves the [parsed] flag
    of the definition as it was. *)
Theorem parse_error_keeps_parsed (o o' : arg) (args : list string) (e : error) :
  parse os_OpenFile o args = Returns (Some e, o') ->
  parsed o' = parsed o.
Proof.
  intros H. by rewrite (parse_error_unchanged _ _ _ _ H).
Qed.

(** C3: on a unique definition, a call of [parse] that succeeds sets
    [parsed], and from then on every call on that instance, whatever its
    argument slice, returns the duplicate error that names the option and
    leaves the instance as it is. *)
Theorem unique_parse_once (o o' : arg) (args : list string) :
  unique o = true ->
  parse os_OpenFile o args = Returns (None, o') ->
  parsed o' = true /\
  name o' = name o /\
  (forall args' : list string,
     parse os_OpenFile o' args' =
       Returns (Some ("[" +:+ name o +:+ "] can only be present once"), o')) /\
  (forall calls : list (list string),
     parse_each os_OpenFile o' calls =
       replicate (length calls)
         (Some ("[" +:+ name o +:+ "] can only be present once"))).
Proof.
  intros Hu [v ->]%parse_success_bound.
  split_and!; [done|done|..].
  - intros args'. by rewrite parse_duplicate.
  - intros calls. by rewrite parse_each_duplicate.
Qed.

End BindingFacts.

(** ** [name] and [usage] *)

Lemma name_short_only (o : arg) :
  lname o = "" -> name o = "-" +:+ sname o.
Proof. intros Hl. unfold name. by rewrite Hl. Qed.

Lemma name_long_only (o : arg) :
  sname o = "" -> lname o <> "" -> name o = "--" +:+ lname o.
Proof.
  intros Hs Hl. unfold name.
  apply String.eqb_neq in Hl. by rewrite Hl, Hs.
Qed.

Lemma name_both (o : arg) :
  sname o <> "" -> lname o <> "" ->
  name o = "-" +:+ sname o +:+ "|--" +:+ lname o.
Proof.
  intros Hs Hl. unfold name.
  apply String.eqb_neq in Hl, Hs. by rewrite Hl, Hs.
Qed.

(** C8: a Single-string definition named [o] / [out] without choices is
    rendered by [usage] as the name and the value placeholder, bare when the
    definition is marked required and in brackets when it is not; [name]
    renders the short name behind one marker, the long name behind two, and
    both with a bar between them. *)
Theorem usage_and_name_rendering :
  (forall (o : arg) (v : string),
     result o = StringSlot v -> sname o = "o" -> lname o = "out" ->
     selector o = None ->
     ((exists op, opts o = Some op /\ Required op = true) ->
      usage o = "-o|--out " +:+ dquote +:+ "<value>" +:+ dquote) /\
     ((opts o = None \/ exists op, opts o = Some op /\ Required op = false) ->
      usage o = "[-o|--out " +:+ dquote +:+ "<value>" +:+ dquote +:+ "]")) /\
  (forall o : arg, sname o <> "" -> lname o = "" ->
     name o = "-" +:+ sname o) /\
  (forall o : arg, sname o = "" -> lname o <> "" ->
     name o = "--" +:+ lname o) /\
  (forall o : arg, sname o <> "" -> lname o <> "" ->
     name o = "-" +:+ sname o +:+ "|--" +:+ lname o).
Proof.
  split_and!.
  - intros o v Hres Hs Hl Hsel.
    assert (Hname : name o = "-o|--out") by (unfold name; by rewrite Hs, Hl).
    unfold usage, optional. rewrite Hname, Hres, Hsel. split.
    + intros (op & -> & ->). reflexivity.
    + intros [->|(op & -> & ->)]; reflexivity.
  - intros o _ Hl. by apply name_short_only.
  - intros o Hs Hl. by apply name_long_only.
  - intros o Hs Hl. by apply name_both.
Qed.

(** ** [check] *)

Lemma short_form_conditions (argument : string) :
  short_form argument = true <->
  1 < len argument /\ HasPrefix argument "-" = true /\
  at_ argument 1 <> Some "-"%char.
Proof.
  split.
  - intros Hs. pose proof Hs as (b & rest & -> & Hb)%short_form_shape.
    unfold short_form in Hs. apply andb_true_iff in Hs as [[Hlen Hp]%andb_true_iff _].
    apply Z.ltb_lt in Hlen. split_and!; [done|done|].
    unfold at_. cbn [String.get]. congruence.
  - intros (Hlen & [rest ->]%HasPrefix_marker & Hb).
    destruct rest as [|b rest]; [vm_compute in Hlen; discriminate Hlen|].
    apply short_form_shape. exists b, rest. split; [done|].
    intros ->. by apply Hb.
Qed.

Lemma long_form_conditions (argument : string) :
  long_form argument = true <->
  2 < len argument /\ HasPrefix argument "--" = true /\
  at_ argument 2 <> Some "-"%char.
Proof.
  split.
  - intros Hs. pose proof Hs as (c & rest & -> & Hc)%long_form_shape.
    unfold long_form in Hs. apply andb_true_iff in Hs as [[Hlen Hp]%andb_true_iff _].
    apply Z.ltb_lt in Hlen. split_and!; [done|done|].
    unfold at_. cbn [String.get]. congruence.
  - intros (Hlen & [rest ->]%HasPrefix_app & Hc).
    destruct rest as [|c rest]; [vm_compute in Hlen; discriminate Hlen|].
    apply long_form_shape. exists c, rest. split; [done|].
    intros ->. by apply Hc.
Qed.

(** [check] on a short-form token other than the help shortcut. *)
Lemma check_short_form (o : arg) (argument : string) :
  nonempty (sname o) = true -> short_form argument = true ->
  argument <> "-h" ->
  check o argument =
    Returns (if is_bool o then Contains (from 1 argument) (sname o)
             else String.eqb (from 1 argument) (sname o)).
Proof.
  intros Hn Hs Hh. unfold check, is_bool.
  apply String.eqb_neq in Hh. rewrite Hh.
  assert (String.eqb argument "--help" = false) as ->.
  { apply String.eqb_neq. intros ->. vm_compute in Hs. discriminate Hs. }
  rewrite (short_form_not_long _ Hs), Hn, Hs, andb_false_r.
  cbn [orb andb]. by repeat case_match.
Qed.

(** C4, amended: on a short-form token other than the help shortcut [-h],
    a definition with a short name is matched by containment of the short
    name in the remainder when its slot is a Boolean flag, and by equality
    of the remainder with the short name for every other kind. *)
Theorem check_short_rule (o : arg) (argument : string) :
  sname o <> "" ->
  1 < len argument -> HasPrefix argument "-" = true ->
  at_ argument 1 <> Some "-"%char ->
  argument <> "-h" ->
  (check o argument = Returns true <->
   if is_bool o then Contains (from 1 argument) (sname o) = true
   else from 1 argument = sname o).
Proof.
  intros Hn%nonempty_true Hlen Hp Hb Hh.
  assert (Hs : short_form argument = true) by by apply short_form_conditions.
  rewrite (check_short_form _ _ Hn Hs Hh).
  destruct (is_bool o).
  - destruct (Contains _ _); split; congruence.
  - destruct (String.eqb_spec (from 1 argument) (sname o)); split; congruence.
Qed.

(** A clustered token does not match a value-bearing option. *)
Lemma check_cluster_not_value (o : arg) :
  is_bool o = false -> sname o = "x" -> check o "-xy" = Returns false.
Proof.
  intros Hb Hx. rewrite check_short_form; [|by rewrite Hx|done|done].
  by rewrite Hb, Hx.
Qed.

(** C6, amended: on a token other than the help shortcut [--help], a
    definition with a long name is matched by the long-name rule exactly
    when the token is longer than two bytes, starts with the double
    marker, its third byte is not the marker, and what follows the double
    marker is the long name.  [check] returns true exactly when that rule
    or the short-name rule applies; the two rules never apply to one
    token, so a true result comes from the long-name rule exactly under
    the four conditions, and they alone decide when there is no short
    name. *)
Theorem check_long_rule (o : arg) (argument : string) :
  lname o <> "" ->
  argument <> "--help" ->
  (check o argument = Returns true <->
   (2 < len argument /\ HasPrefix argument "--" = true /\
    at_ argument 2 <> Some "-"%char /\ from 2 argument = lname o) \/
   (sname o <> "" /\ argument <> "-h" /\
    1 < len argument /\ HasPrefix argument "-" = true /\
    at_ argument 1 <> Some "-"%char /\
    if is_bool o then Contains (from 1 argument) (sname o) = true
    else from 1 argument = sname o)) /\
  (2 < len argument /\ HasPrefix argument "--" = true /\
   at_ argument 2 <> Some "-"%char ->
   ~ (1 < len argument /\ HasPrefix argument "-" = true /\
      at_ argument 1 <> Some "-"%char)) /\
  (sname o = "" ->
   (check o argument = Returns true <->
    2 < len argument /\ HasPrefix argument "--" = true /\
    at_ argument 2 <> Some "-"%char /\ from 2 argument = lname o)).
Proof.
  intros Hn%nonempty_true Hh.
  assert (Hlong :
    2 < len argument /\ HasPrefix argument "--" = true /\
    at_ argument 2 <> Some "-"%char /\ from 2 argument = lname o ->
    check o argument = Returns true).
  { intros (Hlen & Hp & Hb & Heq%String.eqb_eq).
    assert (Hl : long_form argument = true) by by apply long_form_conditions.
    unfold check. apply String.eqb_neq in Hh. rewrite Hh, orb_false_r.
    assert (String.eqb argument "-h" = false) as ->.
    { apply String.eqb_neq. intros ->. vm_compute in Hl. discriminate Hl. }
    by rewrite Hn, Hl, Heq. }
  assert (Hrules :
    check o argument = Returns true ->
    (2 < len argument /\ HasPrefix argument "--" = true /\
     at_ argument 2 <> Some "-"%char /\ from 2 argument = lname o) \/
    (nonempty (sname o) = true /\ argument <> "-h" /\
     short_form argument = true /\
     (if is_bool o then Contains (from 1 argument) (sname o)
      else String.eqb (from 1 argument) (sname o)) = true)).
  { intros Hc. pose proof Hc as Hc0. unfold check in Hc.
    destruct (String.eqb_spec argument "-h") as [->|Hnh]; [discriminate|].
    destruct (String.eqb argument "--help"); [discriminate|].
    cbn [orb] in Hc. rewrite Hn in Hc. cbn [andb] in Hc.
    destruct (long_form argument) eqn:Hl;
      [destruct (String.eqb_spec (from 2 argument) (lname o)) as [Heq|Hne]|].
    - left. apply long_form_conditions in Hl as (? & ? & ?). done.
    - cbn [andb] in Hc.
      rewrite (long_form_not_short _ Hl), andb_false_r in Hc. discriminate.
    - cbn [andb] in Hc.
      destruct (nonempty (sname o)) eqn:Hs; [|discriminate].
      destruct (short_form argument) eqn:Hsf; [|discriminate].
      right. rewrite (check_short_form _ _ Hs Hsf Hnh) in Hc0.
      injection Hc0 as Hc0. done. }
  split_and!.
  - split.
    + intros [Hfour|(Hs & Hnh & Hsf & Hin)]%Hrules; [by left|right].
      apply nonempty_true in Hs.
      apply short_form_conditions in Hsf as (? & ? & ?).
      split_and!; try done.
      destruct (is_bool o); [done|by apply String.eqb_eq].
    + intros [Hfour|(Hs%nonempty_true & Hnh & Hlen & Hp & Hb & Hin)];
        [by apply Hlong|].
      assert (Hsf : short_form argument = true)
        by by apply short_form_conditions.
      rewrite (check_short_form _ _ Hs Hsf Hnh). f_equal.
      destruct (is_bool o); [done|by apply String.eqb_eq].
  - intros Hl%long_form_conditions Hs%short_form_conditions.
    apply long_form_not_short in Hl. congruence.
  - intros Hempty. split; [|apply Hlong].
    intros [Hfour|(Hs%nonempty_true & _)]%Hrules; [done|congruence].
Qed.

(** ** [strings.Replace] *)

Lemma from_length_app (p rest : string) :
  from (String.length p) (p +:+ rest) = rest.
Proof.
  induction p as [|b p IH]; [by destruct rest|]. by rewrite append_cons.
Qed.

Lemma remove_scan_skip (old : string) (s : string) :
  forall k : nat, remove_scan old k s = remove_scan old 0 (from k s).
Proof.
  induction s as [|c s IH]; intros [|k]; try done.
  cbn [remove_scan from]. apply IH.
Qed.

Lemma remove_scan_at_occurrence (old rest : string) :
  old <> "" ->
  remove_scan old 0 (old +:+ rest) = remove_scan old 0 rest.
Proof.
  intros Hold. destruct old as [|b p]; [done|].
  change (String b p +:+ rest) with (String b (p +:+ rest)).
  assert (Hp : HasPrefix (String b (p +:+ rest)) (String b p) = true)
    by (apply HasPrefix_app; by exists rest).
  cbn [remove_scan]. rewrite Hp.
  rewrite remove_scan_skip. cbn [String.length Nat.pred].
  by rewrite from_length_app.
Qed.

Lemma remove_scan_elsewhere (old : string) (c : ascii) (s : string) :
  HasPrefix (String c s) old = false ->
  remove_scan old 0 (String c s) = String c (remove_scan old 0 s).
Proof. intros Hp. cbn [remove_scan]. by rewrite Hp. Qed.

Lemma concat_cons_cons (sep x y : string) (l : list string) :
  String.concat sep (x :: y :: l) = x +:+ sep +:+ String.concat sep (y :: l).
Proof. reflexivity. Qed.

Lemma concat_head (sep p : string) (l : list string) :
  exists tail, String.concat sep (p :: l) = p +:+ tail.
Proof.
  destruct l as [|y l].
  - exists "". cbn. by rewrite append_empty_r.
  - rewrite concat_cons_cons. eauto.
Qed.

Lemma concat_push (sep : string) (c : ascii) (p : string) (l : list string) :
  String.concat sep (String c p :: l) = String c (String.concat sep (p :: l)).
Proof. by destruct l. Qed.

Lemma Contains_empty (old : string) : old <> "" -> Contains "" old = false.
Proof. by destruct old. Qed.

(** What the scan leaves: it cuts [s] at occurrences of [old] into pieces
    that hold no occurrence of [old], and glues the pieces together. *)
Lemma remove_scan_pieces (old : string) :
  old <> "" ->
  forall s : string,
  exists pieces : list string,
    s = String.concat old pieces /\
    Forall (fun p => Contains p old = false) pieces /\
    remove_scan old 0 s = String.concat "" pieces.
Proof.
  intros Hold s.
  cut (exists pieces, pieces <> [] /\ s = String.concat old pieces /\
         Forall (fun p => Contains p old = false) pieces /\
         remove_scan old 0 s = String.concat "" pieces).
  { intros (pieces & _ & H). eauto. }
  remember (String.length s) as n eqn:Hn.
  revert s Hn. induction n as [n IH] using lt_wf_ind. intros s Hn.
  destruct s as [|c s].
  { exists [""]. split_and!; try done.
    constructor; [by apply Contains_empty|constructor]. }
  destruct (HasPrefix (String c s) old) eqn:Hp.
  - apply HasPrefix_app in Hp as [rest Hrest].
    destruct (IH (String.length rest)) with (s := rest)
      as ([|p ps] & Hne & Hcat & Hfree & Hscan); [|done|done|].
    { subst n. rewrite Hrest, length_append.
      destruct old; [done|]. cbn [String.length]. lia. }
    exists ("" :: p :: ps). split_and!; [done| | |].
    + by rewrite concat_cons_cons, append_empty_l, <- Hcat.
    + constructor; [by apply Contains_empty|done].
    + rewrite Hrest, remove_scan_at_occurrence by done.
      by rewrite concat_cons_cons.
  - destruct (IH (String.length s)) with (s := s)
      as ([|p ps] & Hne & Hcat & Hfree & Hscan); [subst n; cbn; lia|done|done|].
    exists (String c p :: ps). split_and!; [done| | |].
    + by rewrite concat_push, <- Hcat.
    + apply Forall_cons in Hfree as [Hp0 Hps].
      constructor; [|done]. cbn [Contains]. rewrite Hp0, orb_false_r.
      destruct (HasPrefix (String c p) old) eqn:Hpp; [|done].
      apply HasPrefix_app in Hpp as [r Hr].
      destruct (concat_head old p ps) as [tail Htail].
      assert (HasPrefix (String c s) old = true); [|congruence].
      apply HasPrefix_app. exists (r +:+ tail).
      rewrite Hcat, Htail, <- append_assoc, <- Hr. done.
    + rewrite remove_scan_elsewhere by done.
      by rewrite Hscan, concat_push.
Qed.

(** For a name of one byte, the scan deletes that byte wherever it stands. *)
Lemma Replace_single_byte (x : ascii) (s : string) :
  Replace_by_empty s (String x "") = without x s.
Proof.
  unfold Replace_by_empty. induction s as [|c s IH]; [done|].
  cbn [remove_scan without HasPrefix String.prefix String.length Nat.pred].
  destruct (Ascii.ascii_dec x c) as [->|Hne].
  - rewrite Ascii.eqb_refl. by destruct s.
  - destruct (Ascii.eqb_spec c x); [congruence|]. by rewrite IH.
Qed.

(** ** [int] arithmetic *)

Lemma wrap_in_range (z : Z) : min_int <= z <= max_int -> wrap z = z.
Proof.
  unfold wrap, min_int, max_int. intros Hz.
  rewrite Z.mod_small by lia. lia.
Qed.

(** ** [reduce] *)

Lemma store_in_range (i : Z) (v : string) (args : list string) :
  in_range i args = true ->
  store i v args = (Some tt, <[Z.to_nat i := v]> args).
Proof. intros Hr. unfold store. by rewrite Hr. Qed.

Lemma in_range_insert (i : Z) (k : nat) (v : string) (args : list string) :
  in_range i (<[k := v]> args) = in_range i args.
Proof. unfold in_range. by rewrite length_insert. Qed.

(** The blanking loop inside the slice: it returns, and has blanked the
    [n] slots from [i] on and no other. *)
Lemma blank_from_spec (n : nat) :
  forall (i : Z) (args : list string),
    0 <= i -> i + Z.of_nat n <= Z.of_nat (length args) ->
    exists args' : list string,
      blank_from n i args = (Some tt, args') /\
      length args' = length args /\
      forall j : nat,
        args' !! j =
          if decide (Z.to_nat i <= j < Z.to_nat i + n)%nat
          then Some "" else args !! j.
Proof.
  induction n as [|n IH]; intros i args Hi Hlen.
  - exists args. split_and!; [done|done|].
    intros j. case_decide; [lia|done].
  - cbn [blank_from]. unfold bind.
    rewrite store_in_range by (apply in_range_lt; lia).
    destruct (IH (i + 1) (<[Z.to_nat i := ""]> args)) as (args' & Hrun & Hl & Hget);
      [lia|rewrite length_insert; lia|].
    exists args'. split_and!; [done|by rewrite Hl, length_insert|].
    intros j. rewrite Hget.
    destruct (decide (j = Z.to_nat i)) as [->|Hne].
    + rewrite list_lookup_insert_eq by lia. repeat case_decide; done || lia.
    + rewrite list_lookup_insert_ne by done. repeat case_decide; done || lia.
Qed.

Lemma token_at_lookup (args : list string) (j : Z) :
  token_at args j = if in_range j args then args !! Z.to_nat j else None.
Proof. unfold token_at, load. by destruct (in_range j args). Qed.

Lemma blank_until_blanks (position count : Z) (args : list string) :
  0 <= position -> 0 <= count ->
  position + count <= Z.of_nat (length args) ->
  exists args' : list string,
    blank_until position (position + count) args = (Some tt, args') /\
    blanks position count args args'.
Proof.
  intros Hp Hc Hlen. unfold blank_until.
  replace (position + count - position) with count by lia.
  destruct (blank_from_spec (Z.to_nat count) position args)
    as (args' & Hrun & Hl & Hget); [done|lia|].
  exists args'. split; [done|]. split_and!; [done|..].
  - intros j Hj. rewrite token_at_lookup, Hget.
    assert (in_range j args' = true) as -> by (apply in_range_lt; lia).
    case_decide; [done|lia].
  - intros j Hj. rewrite !token_at_lookup, Hget.
    unfold in_range. rewrite Hl.
    destruct (_ && _) eqn:Hr; [|done].
    apply andb_true_iff in Hr as [?%Z.leb_le ?%Z.ltb_lt].
    case_decide; [lia|done].
Qed.

(** C1, amended: when the token at [position] matches the long name and the
    slice holds the [arity + 1] slots from [position] on, [reduce] returns
    and has blanked exactly those slots: the flag token at [position] and
    the value tokens at [position + 1 .. position + arity]. *)
Theorem reduce_long_blanks (o : arg) (position : Z) (args : list string)
    (argument : string) :
  lname o <> "" ->
  0 <= arity o ->
  token_at args position = Some argument ->
  2 < len argument -> HasPrefix argument "--" = true ->
  at_ argument 2 <> Some "-"%char ->
  from 2 argument = lname o ->
  position + arity o < Z.of_nat (length args) ->
  Z.of_nat (length args) <= max_int ->
  exists args' : list string,
    reduce o position args = (Some tt, args') /\
    blanks position (arity o + 1) args args'.
Proof.
  unfold arity.
  intros Hn%nonempty_true Har Htok Hlen Hp Hb Heq%String.eqb_eq Hfit Hmax.
  assert (Hl : long_form argument = true) by by apply long_form_conditions.
  pose proof Htok as [[Hpos _]%in_range_lt _]%token_at_Some.
  destruct (blank_until_blanks position (size o) args)
    as (args' & Hrun & Hbl); [lia..|].
  exists args'. replace (size o - 1 + 1) with (size o) by lia.
  split; [|done].
  unfold reduce, bind. rewrite (load_token _ _ _ Htok), Hn, Hl, Heq.
  cbn [andb]. unfold int_add.
  rewrite wrap_in_range by (unfold min_int, max_int in *; lia).
  rewrite Hrun, (long_form_not_short _ Hl), andb_false_r. done.
Qed.

(** The blanking loop on a slice that ends before the last slot: it
    panics. *)
Lemma blank_from_panics (n : nat) :
  forall (i : Z) (args : list string),
    0 <= i <= Z.of_nat (length args) ->
    Z.of_nat (length args) < i + Z.of_nat n ->
    fst (blank_from n i args) = None.
Proof.
  induction n as [|n IH]; intros i args Hi Hlen; [lia|].
  cbn [blank_from]. unfold bind, store.
  destruct (in_range i args) eqn:Hr; [|done].
  apply in_range_lt in Hr.
  specialize (IH (i + 1) (<[Z.to_nat i := ""]> args)).
  rewrite length_insert in IH.
  destruct (blank_from n (i + 1) _) as [[[]|] rest]; [|done].
  apply IH; lia.
Qed.

(** [reduce] on a long-name match whose slots run past the end of the
    slice: the call panics. *)
Lemma reduce_long_out_of_range (o : arg) (position : Z) (args : list string)
    (argument : string) :
  lname o <> "" ->
  token_at args position = Some argument ->
  long_form argument = true ->
  from 2 argument = lname o ->
  Z.of_nat (length args) < position + size o <= max_int ->
  fst (reduce o position args) = None.
Proof.
  intros Hn%nonempty_true Htok Hl Heq%String.eqb_eq Hout.
  pose proof Htok as [[Hpos Hlt]%in_range_lt _]%token_at_Some.
  unfold reduce, bind. rewrite (load_token _ _ _ Htok), Hn, Hl, Heq.
  cbn [andb]. unfold int_add.
  rewrite wrap_in_range by (unfold min_int, max_int in *; lia).
  unfold blank_until.
  pose proof (blank_from_panics (Z.to_nat (position + size o - position))
                position args) as Hpanic.
  destruct (blank_from _ position args) as [[[]|] rest]; [|done].
  exfalso. assert (Habs : Some tt = None) by (apply Hpanic; lia).
  discriminate Habs.
Qed.

Lemma reduce_bool (o : arg) (position : Z) (args : list string)
    (argument : string) :
  is_bool o = true -> nonempty (sname o) = true ->
  token_at args position = Some argument ->
  short_form argument = true ->
  Contains (from 1 argument) (sname o) = true ->
  reduce o position args =
    (Some tt, <[Z.to_nat position := cluster_rest argument (sname o)]> args).
Proof.
  intros Hb Hn Htok Hs Hc.
  pose proof Htok as [Hr _]%token_at_Some.
  pose proof Hr as [_ Hlt]%in_range_lt.
  unfold reduce, bind, is_bool in *. rewrite (load_token _ _ _ Htok).
  rewrite (short_form_not_long _ Hs), andb_false_r, Hn, Hs. cbn [andb ret].
  destruct (result o); try discriminate. rewrite Hc.
  rewrite store_in_range by done. unfold load.
  rewrite in_range_insert, Hr, list_lookup_insert_eq by done.
  unfold cluster_rest.
  destruct (String.eqb _ "-").
  - rewrite store_in_range by by rewrite in_range_insert.
    by rewrite list_insert_insert_eq.
  - done.
Qed.

Lemma Contains_tail (c : ascii) (s substr : string) :
  Contains s substr = true -> Contains (String c s) substr = true.
Proof. intros H. cbn [Contains]. rewrite H. apply orb_true_r. Qed.

(** C5: on a Boolean-flag definition and a cluster at [position] that holds
    its short name, [reduce] returns and rewrites the token at [position]
    only: the new token is the cluster with the short name removed (for a
    short name of one character, the cluster without that character), and
    it is the empty token when the removal leaves the lone marker. *)
Theorem reduce_bool_cluster (o : arg) (position : Z) (args : list string)
    (argument : string) :
  is_bool o = true ->
  sname o <> "" ->
  token_at args position = Some argument ->
  1 < len argument -> HasPrefix argument "-" = true ->
  at_ argument 1 <> Some "-"%char ->
  Contains (from 1 argument) (sname o) = true ->
  exists token' : string,
    reduce o position args = (Some tt, <[Z.to_nat position := token']> args) /\
    (Replace_by_empty argument (sname o) = "-" -> token' = "") /\
    (Replace_by_empty argument (sname o) <> "-" ->
       token' = Replace_by_empty argument (sname o)) /\
    (forall x : ascii, sname o = String x "" ->
       Replace_by_empty argument (sname o) = without x argument).
Proof.
  intros Hb Hn%nonempty_true Htok Hlen Hp Hm Hc.
  assert (Hs : short_form argument = true) by by apply short_form_conditions.
  exists (cluster_rest argument (sname o)). split_and!.
  - by apply reduce_bool.
  - intros Heq. unfold cluster_rest. by rewrite Heq.
  - intros Hne%String.eqb_neq. unfold cluster_rest. by rewrite Hne.
  - intros x ->. apply Replace_single_byte.
Qed.

(** C10: on a Boolean-flag definition and a cluster that holds its short
    name, one call of [reduce] removes the short name at every place of the
    whole token: the token is cut at the occurrences of the short name, at
    least one, into pieces free of it, and the pieces glued together (or
    the empty token, when that is the lone marker) replace the token. *)
Theorem reduce_bool_removes_every_occurrence (o : arg) (position : Z)
    (args : list string) (argument : string) :
  is_bool o = true ->
  sname o <> "" ->
  token_at args position = Some argument ->
  1 < len argument -> HasPrefix argument "-" = true ->
  at_ argument 1 <> Some "-"%char ->
  Contains (from 1 argument) (sname o) = true ->
  exists pieces : list string,
    argument = String.concat (sname o) pieces /\
    (2 <= length pieces)%nat /\
    Forall (fun p => Contains p (sname o) = false) pieces /\
    reduce o position args =
      (Some tt,
       <[Z.to_nat position :=
           if String.eqb (String.concat "" pieces) "-" then ""
           else String.concat "" pieces]> args).
Proof.
  intros Hb Hne Htok Hlen Hp Hm Hc.
  assert (Hs : short_form argument = true) by by apply short_form_conditions.
  destruct (remove_scan_pieces (sname o) Hne argument)
    as (pieces & Hcat & Hfree & Hscan).
  exists pieces. split_and!; [done| |done|].
  - apply short_form_shape in Hs as (b & rest & Harg & _).
    rewrite Harg in Hc. cbn [from] in Hc.
    apply (Contains_tail "-") in Hc. rewrite <- Harg in Hc.
    destruct pieces as [|p [|q pieces]]; [| |cbn [length]; lia].
    + rewrite Hcat in Harg. discriminate Harg.
    + apply Forall_cons in Hfree as [Hp0 _]. cbn in Hcat. congruence.
  - rewrite (reduce_bool o position args argument);
      [|done|by apply nonempty_true|done..].
    unfold cluster_rest, Replace_by_empty.
    destruct (sname o); [done|]. by rewrite Hscan.
Qed.

(** One-character names: nothing of the name is left in the token. *)
Lemma without_free (x : ascii) (s : string) :
  Contains (without x s) (String x "") = false.
Proof.
  induction s as [|c s IH]; [done|]. cbn [without].
  destruct (Ascii.eqb_spec c x) as [->|Hne]; [done|].
  cbn [Contains]. rewrite IH, orb_false_r.
  unfold HasPrefix. cbn [String.prefix].
  destruct (Ascii.ascii_dec x c); [congruence|done].
Qed.

Section StringBinding.

Variable os_OpenFile : string -> Z -> Z -> File + error.

Lemma selects_In (sel : list string) (token : string) :
  selects sel token = true <-> In token sel.
Proof.
  unfold selects. rewrite existsb_exists. split.
  - intros (v & Hin & ->%String.eqb_eq). done.
  - intros Hin. exists token. by rewrite String.eqb_refl.
Qed.

(** C2, amended: on a Single-string definition that passes the duplicate
    check and whose validator, if any, accepts the slice, [parse] returns
    the error "must be followed by a string" for the empty slice and the
    error "followed by too many arguments" for two tokens or more; with
    choices set and one token, it succeeds and writes the token when the
    token is one of the choices, and returns the bad-value error that
    lists the choices when it is not. *)
Theorem parse_single_string (o : arg) (v : string) (args : list string) :
  result o = StringSlot v ->
  unique o && parsed o = false ->
  validation o args = None ->
  (args = [] ->
   parse os_OpenFile o args =
     Returns (Some ("[" +:+ name o +:+ "] must be followed by a string"), o)) /\
  ((2 <= length args)%nat ->
   parse os_OpenFile o args =
     Returns (Some ("[" +:+ name o +:+ "] followed by too many arguments"), o)) /\
  (forall (sel : list string) (token : string),
     selector o = Some sel -> args = [token] ->
     (In token sel ->
      parse os_OpenFile o args = Returns (None, bound_to o (StringSlot token)) /\
      result (bound_to o (StringSlot token)) = StringSlot token) /\
     (~ In token sel ->
      parse os_OpenFile o args =
        Returns (Some ("bad value for [" +:+ name o +:+
                       "]. Allowed values are " +:+ fmt_v sel), o))).
Proof.
  intros Hres Hdup Hval. unfold parse. rewrite Hdup, Hval, Hres.
  split_and!.
  - by intros ->.
  - intros Hlen.
    destruct (Z.ltb_spec (Z.of_nat (length args)) 1); [lia|].
    destruct (Z.ltb_spec 1 (Z.of_nat (length args))); [done|lia].
  - intros sel token Hsel ->. rewrite Hsel.
    cbn [length Z.of_nat Z.ltb Z.compare Pos.of_succ_nat Pos.compare].
    change (args0 [token]) with token. split.
    + intros Hin%selects_In. by rewrite Hin.
    + intros Hin. destruct (selects sel token) eqn:Hselects; [|done].
      by apply selects_In in Hselects.
Qed.

End StringBinding.

(* ================================================================== *)
(** * The methods on sample inputs                                      *)
(* ================================================================== *)

Example check_long_out : check option_out "--out" = Returns true.
Proof. reflexivity. Qed.

Example check_triple_marker : check option_out "---out" = Returns false.
Proof. reflexivity. Qed.

Example check_cluster_flag : check flag_x "-xyz" = Returns true.
Proof. reflexivity. Qed.

Example check_help_shortcut :
  check option_help "-h" = Exits (Usage root) /\
  check option_help "--help" = Exits (Usage root).
Proof. split; reflexivity. Qed.

Example reduce_long_out :
  reduce option_out 1 ["-x"; "--out"; "a.txt"; "rest"] =
    (Some tt, ["-x"; ""; ""; "rest"]).
Proof. reflexivity. Qed.

Example reduce_past_the_end :
  reduce option_out 0 ["--out"] = (None, [""]).
Proof. reflexivity. Qed.

Example reduce_cluster_xyz :
  reduce flag_x 0 ["-xyz"; "file"] = (Some tt, ["-yz"; "file"]).
Proof. reflexivity. Qed.

Example reduce_cluster_x :
  reduce flag_x 0 ["-x"; "file"] = (Some tt, [""; "file"]).
Proof. reflexivity. Qed.

Example reduce_cluster_xyx :
  reduce flag_x 0 ["-xyx"; "file"] = (Some tt, ["-y"; "file"]).
Proof. reflexivity. Qed.

Example parse_mode_twice :
  parse_each no_files option_mode [["fast"]; ["slow"]; []] =
    [None; Some "[-m|--mode] can only be present once";
     Some "[-m|--mode] can only be present once"].
Proof. reflexivity. Qed.

Example parse_mode_bad_value :
  parse no_files option_mode ["medium"] =
    Returns (Some "bad value for [-m|--mode]. Allowed values are [fast slow]",
             option_mode).
Proof. reflexivity. Qed.

Example parse_unsupported :
  parse no_files option_other ["7"] =
    Returns (Some "unsupported type [%!t(int=7)]", option_other).
Proof. reflexivity. Qed.

Example parse_seen_empty :
  parse no_files option_out_seen [] =
    Returns (Some "[-o|--out] can only be present once", option_out_seen).
Proof. reflexivity. Qed.

(* ================================================================== *)
(** * Where the claims as first stated fail                             *)
(* ================================================================== *)

(** C1 as stated, for every slice whose token at [position] matches: it
    fails on a slice that ends before the value slots, where the blanking
    loop runs out of the slice and the call panics. *)
Lemma reduce_long_needs_slots :
  ~ (forall (o : arg) (position : Z) (args : list string) (argument : string),
       lname o <> "" ->
       0 <= arity o ->
       token_at args position = Some argument ->
       2 < len argument -> HasPrefix argument "--" = true ->
       at_ argument 2 <> Some "-"%char ->
       from 2 argument = lname o ->
       exists args' : list string,
         reduce o position args = (Some tt, args') /\
         blanks position (arity o + 1) args args').
Proof.
  intros H.
  destruct (H option_out 0 ["--out"] "--out") as (args' & Hrun & _);
    [discriminate | vm_compute; discriminate | reflexivity | reflexivity
    | reflexivity | discriminate | reflexivity | ].
  vm_compute in Hrun. discriminate Hrun.
Qed.

(** C2 as stated, for every Single-string definition: it fails on a unique
    definition that is already parsed, where the duplicate check answers
    before the slice is looked at. *)
Lemma parse_single_string_needs_guards :
  ~ (forall (os_OpenFile : string -> Z -> Z -> File + error)
            (o : arg) (v : string),
       result o = StringSlot v ->
       parse os_OpenFile o [] =
         Returns (Some ("[" +:+ name o +:+ "] must be followed by a string"), o)).
Proof.
  intros H. specialize (H no_files option_out_seen "a.txt" eq_refl).
  vm_compute in H. discriminate H.
Qed.

(** C4 as stated, for every single-marker token: it fails on the help
    shortcut [-h], on which [check] prints the usage and ends the process
    where the rule would have it return true. *)
Lemma check_short_rule_needs_no_help :
  ~ (forall (o : arg) (argument : string),
       sname o <> "" ->
       1 < len argument -> HasPrefix argument "-" = true ->
       at_ argument 1 <> Some "-"%char ->
       (check o argument = Returns true <->
        if is_bool o then Contains (from 1 argument) (sname o) = true
        else from 1 argument = sname o)).
Proof.
  intros H.
  destruct (H option_help "-h") as [_ Hback];
    [discriminate | reflexivity | reflexivity | discriminate | ].
  specialize (Hback eq_refl). vm_compute in Hback. discriminate Hback.
Qed.

(** C6 as stated, for every token: it fails on the help shortcut [--help],
    which meets the four conditions for the long name [help], and on which
    [check] prints the usage and ends the process where the rule would
    have it return true. *)
Lemma check_long_rule_needs_no_help :
  ~ (forall (o : arg) (argument : string),
       lname o <> "" ->
       2 < len argument /\ HasPrefix argument "--" = true /\
       at_ argument 2 <> Some "-"%char /\ from 2 argument = lname o ->
       check o argument = Returns true).
Proof.
  intros H.
  assert (Hback : check option_help "--help" = Returns true).
  { apply H; [discriminate|].
    split_and!; [reflexivity | reflexivity | discriminate | reflexivity]. }
  vm_compute in Hback. discriminate Hback.
Qed.

(* ================================================================== *)
(** * The theorems at sample inputs                                     *)
(* ================================================================== *)

Lemma reduce_long_blanks_witness :
  exists args' : list string,
    reduce option_out 1 ["-x"; "--out"; "a.txt"; "rest"] = (Some tt, args') /\
    blanks 1 (arity option_out + 1) ["-x"; "--out"; "a.txt"; "rest"] args'.
Proof.
  apply (reduce_long_blanks option_out 1 ["-x"; "--out"; "a.txt"; "rest"] "--out");
    [discriminate | vm_compute; discriminate | reflexivity | reflexivity
    | reflexivity | discriminate | reflexivity | reflexivity
    | vm_compute; discriminate].
Defined.

Lemma parse_single_string_witness :
  parse no_files option_mode ["fast"] =
    Returns (None, bound_to option_mode (StringSlot "fast")) /\
  parse no_files option_mode ["medium"] =
    Returns (Some ("bad value for [" +:+ name option_mode +:+
                   "]. Allowed values are " +:+ fmt_v ["fast"; "slow"]),
             option_mode).
Proof.
  destruct (parse_single_string no_files option_mode "" ["fast"]
              eq_refl eq_refl eq_refl) as (_ & _ & Hfast).
  destruct (parse_single_string no_files option_mode "" ["medium"]
              eq_refl eq_refl eq_refl) as (_ & _ & Hmedium).
  split.
  - apply (Hfast ["fast"; "slow"] "fast" eq_refl eq_refl). simpl. tauto.
  - apply (Hmedium ["fast"; "slow"] "medium" eq_refl eq_refl).
    simpl. intros [H|[H|[]]]; discriminate H.
Defined.

Lemma unique_parse_once_witness :
  parse no_files option_mode ["fast"] =
    Returns (None, bound_to option_mode (StringSlot "fast")) /\
  parsed (bound_to option_mode (StringSlot "fast")) = true /\
  parse no_files (bound_to option_mode (StringSlot "fast")) ["slow"] =
    Returns (Some ("[" +:+ name option_mode +:+ "] can only be present once"),
             bound_to option_mode (StringSlot "fast")).
Proof.
  destruct (unique_parse_once no_files option_mode
              (bound_to option_mode (StringSlot "fast")) ["fast"]
              eq_refl eq_refl) as (Hparsed & _ & Hnext & _).
  split; [reflexivity|]. split; [exact Hparsed | exact (Hnext ["slow"])].
Defined.

Lemma check_short_rule_witness :
  check flag_x "-xyz" = Returns true <->
  Contains (from 1 "-xyz") (sname flag_x) = true.
Proof.
  apply (check_short_rule flag_x "-xyz");
    [discriminate | reflexivity | reflexivity | discriminate | discriminate].
Defined.

Lemma reduce_bool_cluster_witness :
  exists token' : string,
    reduce flag_x 0 ["-xyz"; "file"] = (Some tt, <[0%nat := token']> ["-xyz"; "file"]) /\
    (Replace_by_empty "-xyz" (sname flag_x) = "-" -> token' = "") /\
    (Replace_by_empty "-xyz" (sname flag_x) <> "-" ->
       token' = Replace_by_empty "-xyz" (sname flag_x)) /\
    (forall x : ascii, sname flag_x = String x "" ->
       Replace_by_empty "-xyz" (sname flag_x) = without x "-xyz").
Proof.
  apply (reduce_bool_cluster flag_x 0 ["-xyz"; "file"] "-xyz");
    [reflexivity | discriminate | reflexivity | reflexivity | reflexivity
    | discriminate | reflexivity].
Defined.

Lemma check_long_rule_witness :
  check option_out "--out" = Returns true /\
  check option_out "-xout" <> Returns true.
Proof.
  split.
  - destruct (check_long_rule option_out "--out") as [[_ Hback] _];
      [discriminate | discriminate | ].
    apply Hback. left.
    split; [reflexivity|]. split; [reflexivity|].
    split; [discriminate | reflexivity].
  - destruct (check_long_rule option_out "-xout") as [[Hrules _] _];
      [discriminate | discriminate | ].
    intros Hc.
    destruct (Hrules Hc) as [(_ & Hp & _)|(_ & _ & _ & _ & _ & Heq)];
      [vm_compute in Hp | vm_compute in Heq]; discriminate.
Defined.

Lemma parse_error_keeps_parsed_witness :
  parse no_files option_mode ["medium"] =
    Returns (Some "bad value for [-m|--mode]. Allowed values are [fast slow]",
             option_mode) /\
  parsed option_mode = parsed option_mode.
Proof.
  split; [reflexivity|].
  apply (parse_error_keeps_parsed no_files option_mode option_mode
           ["medium"]
           "bad value for [-m|--mode]. Allowed values are [fast slow]").
  reflexivity.
Defined.

Lemma usage_and_name_rendering_witness :
  usage option_out_required = "-o|--out " +:+ dquote +:+ "<value>" +:+ dquote /\
  usage option_out = "[-o|--out " +:+ dquote +:+ "<value>" +:+ dquote +:+ "]" /\
  name flag_x = "-x".
Proof.
  destruct usage_and_name_rendering as (Husage & Hshort & _ & _).
  split_and!.
  - apply (Husage option_out_required ""); try reflexivity.
    exists {| Required := true; Validate := None |}. split; reflexivity.
  - apply (Husage option_out ""); try reflexivity. left. reflexivity.
  - apply (Hshort flag_x); [discriminate | reflexivity].
Defined.

Lemma blanked_token_is_inert_witness :
  check option_out "" = Returns false /\
  reduce option_out 1 ["-x"; ""; "rest"] = (Some tt, ["-x"; ""; "rest"]).
Proof.
  destruct (blanked_token_is_inert option_out) as [Hcheck Hreduce].
  split; [exact Hcheck|]. apply Hreduce. reflexivity.
Defined.

Lemma reduce_bool_removes_every_occurrence_witness :
  exists pieces : list string,
    "-xyx" = String.concat (sname flag_x) pieces /\
    (2 <= length pieces)%nat /\
    Forall (fun p => Contains p (sname flag_x) = false) pieces /\
    reduce flag_x 0 ["-xyx"; "file"] =
      (Some tt,
       <[0%nat :=
           if String.eqb (String.concat "" pieces) "-" then ""
           else String.concat "" pieces]> ["-xyx"; "file"]).
Proof.
  apply (reduce_bool_removes_every_occurrence flag_x 0 ["-xyx"; "file"] "-xyx");
    [reflexivity | discriminate | reflexivity | reflexivity | reflexivity
    | discriminate | reflexivity].
Defined.

(* ================================================================== *)
(** * Further properties of the methods                                 *)
(* ================================================================== *)

(** ** What [reduce] never touches *)

Lemma keeps_below_ret {A : Type} (lo : Z) (a : A) : keeps_below lo (ret a).
Proof. by intros s. Qed.

Lemma keeps_below_load (lo i : Z) : keeps_below lo (load i).
Proof. intros s. unfold load. by destruct (in_range i s). Qed.

Lemma keeps_below_store (lo i : Z) (v : string) :
  lo <= i -> keeps_below lo (store i v).
Proof.
  intros Hlo s. unfold store. destruct (in_range i s) eqn:Hr; [|done].
  apply in_range_lt in Hr. cbn [snd]. split; [by rewrite length_insert|].
  intros j Hj. apply list_lookup_insert_ne. lia.
Qed.

Lemma keeps_below_bind {A B : Type} (lo : Z) (m : M A) (k : A -> M B) :
  keeps_below lo m -> (forall a, keeps_below lo (k a)) ->
  keeps_below lo (bind m k).
Proof.
  intros Hm Hk s. unfold bind. specialize (Hm s).
  destruct (m s) as [[a|] s1]; [|done].
  specialize (Hk a s1). cbn [snd] in Hm. destruct Hm as [Hl1 Hg1], Hk as [Hl2 Hg2].
  split; [congruence|]. intros j Hj. by rewrite Hg2, Hg1.
Qed.

Lemma keeps_below_blank_from (lo : Z) (n : nat) :
  forall i : Z, lo <= i -> keeps_below lo (blank_from n i).
Proof.
  induction n as [|n IH]; intros i Hi; [apply keeps_below_ret|].
  cbn [blank_from]. apply keeps_below_bind; [by apply keeps_below_store|].
  intros _. apply IH. lia.
Qed.

Lemma keeps_below_blank_until (lo position bound : Z) :
  lo <= position -> keeps_below lo (blank_until position bound).
Proof. intros. unfold blank_until. by apply keeps_below_blank_from. Qed.

Lemma keeps_below_reduce (o : arg) (position : Z) :
  keeps_below position (reduce o position).
Proof.
  unfold reduce.
  apply keeps_below_bind; [apply keeps_below_load|]. intros argument.
  apply keeps_below_bind.
  { destruct (_ && _); [by apply keeps_below_blank_until|apply keeps_below_ret]. }
  intros _.
  destruct (_ && _); [|apply keeps_below_ret].
  assert (Hvalue : keeps_below position
            (if String.eqb (from 1 argument) (sname o)
             then blank_until position (int_add position (size o))
             else ret tt)).
  { destruct (String.eqb _ _); [by apply keeps_below_blank_until|apply keeps_below_ret]. }
  destruct (result o); try exact Hvalue.
  clear Hvalue. destruct (Contains _ _); [|apply keeps_below_ret].
  apply keeps_below_bind; [by apply keeps_below_store|]. intros _.
  apply keeps_below_bind; [apply keeps_below_load|]. intros current.
  destruct (String.eqb current "-"); [by apply keeps_below_store|apply keeps_below_ret].
Qed.

(** X1: whether it returns or panics, [reduce] leaves the slice at its
    length and leaves every token before [position] as it was. *)
Theorem reduce_keeps_length_and_prefix (o : arg) (position : Z)
    (args : list string) :
  length (reduce o position args).2 = length args /\
  forall j : Z, j < position ->
    token_at (reduce o position args).2 j = token_at args j.
Proof.
  destruct (keeps_below_reduce o position args) as [Hlen Hget].
  split; [done|]. intros j Hj. rewrite !token_at_lookup.
  unfold in_range. rewrite Hlen.
  destruct (_ && _) eqn:Hr; [|done].
  apply andb_true_iff in Hr as [?%Z.leb_le ?%Z.ltb_lt].
  apply Hget. lia.
Qed.

(** ** [reduce] where [check] finds no match *)

(** X2: at a token on which [check] returns false, [reduce] returns and
    leaves the slice as it was. *)
Theorem reduce_unmatched_is_noop (o : arg) (position : Z) (args : list string)
    (argument : string) :
  token_at args position = Some argument ->
  check o argument = Returns false ->
  reduce o position args = (Some tt, args).
Proof.
  intros Htok Hc. unfold reduce, bind. rewrite (load_token _ _ _ Htok).
  unfold check in Hc. destruct (_ || _); [discriminate|].
  destruct (nonempty (lname o) && long_form argument &&
            String.eqb (from 2 argument) (lname o)); [discriminate|].
  cbn [ret]. destruct (nonempty (sname o) && short_form argument); [|done].
  destruct (result o);
    match type of Hc with
    | (if ?c then _ else _) = _ => destruct c; [discriminate|done]
    end.
Qed.

(** ** [reduce] on a short-name match of a value-bearing option *)

(** X3: when the token at [position] is the short name of a definition that
    is not a Boolean flag and the slice holds the slots, reduce blanks the
    option token and its value tokens and nothing else. *)
Theorem reduce_short_blanks (o : arg) (position : Z) (args : list string)
    (argument : string) :
  is_bool o = false ->
  sname o <> "" ->
  0 <= arity o ->
  token_at args position = Some argument ->
  short_form argument = true ->
  from 1 argument = sname o ->
  position + arity o < Z.of_nat (length args) ->
  Z.of_nat (length args) <= max_int ->
  exists args' : list string,
    reduce o position args = (Some tt, args') /\
    blanks position (arity o + 1) args args'.
Proof.
  unfold arity.
  intros Hb Hn%nonempty_true Har Htok Hs Heq%String.eqb_eq Hfit Hmax.
  pose proof Htok as [[Hpos _]%in_range_lt _]%token_at_Some.
  destruct (blank_until_blanks position (size o) args)
    as (args' & Hrun & Hbl); [lia..|].
  exists args'. replace (size o - 1 + 1) with (size o) by lia.
  split; [|done].
  unfold reduce, bind, is_bool in *. rewrite (load_token _ _ _ Htok).
  rewrite (short_form_not_long _ Hs), andb_false_r, Hn, Hs, Heq.
  cbn [andb ret]. unfold int_add.
  rewrite wrap_in_range by (unfold min_int, max_int in *; lia).
  by destruct (result o).
Qed.

(** ** [reduce] twice *)

Lemma blank_from_head (n : nat) (i : Z) (args args' : list string) :
  blank_from (S n) i args = (Some tt, args') ->
  token_at args' i = Some "".
Proof.
  cbn [blank_from]. unfold bind, store.
  destruct (in_range i args) eqn:Hr; [|discriminate].
  intros Hrun.
  destruct (keeps_below_blank_from (i + 1) n (i + 1) (Z.le_refl _)
              (<[Z.to_nat i := ""]> args)) as [Hlen Hget].
  rewrite Hrun in Hlen, Hget. cbn [snd] in Hlen, Hget.
  rewrite length_insert in Hlen.
  apply in_range_lt in Hr as Hr'.
  rewrite token_at_lookup. unfold in_range in *. rewrite Hlen, Hr.
  rewrite Hget by lia. apply list_lookup_insert_eq. lia.
Qed.

(** A blanking loop that returns has either done nothing or blanked the
    slot it started at. *)
Lemma blank_until_returns (position bound : Z) (args args' : list string) :
  blank_until position bound args = (Some tt, args') ->
  args' = args \/ token_at args' position = Some "".
Proof.
  unfold blank_until. destruct (Z.to_nat (bound - position)) as [|n].
  - intros [= <-]. by left.
  - intros Hrun. right. by eapply blank_from_head.
Qed.

(** X4: for a definition that is not a Boolean flag, a call of [reduce] that
    returns has done all there is to do: the same call on the slice it
    left returns and changes nothing. *)
Theorem reduce_value_idempotent (o : arg) (position : Z)
    (args args' : list string) :
  is_bool o = false ->
  reduce o position args = (Some tt, args') ->
  reduce o position args' = (Some tt, args').
Proof.
  intros Hb Hrun. pose proof Hrun as Hrun0.
  unfold reduce, bind, is_bool in Hrun, Hb.
  destruct (load position args) as [[argument|] s0] eqn:Hload; [|discriminate].
  assert (s0 = args) as ->.
  { unfold load in Hload. destruct (in_range position args); by simplify_eq. }
  assert (Hdone : forall bound s,
             blank_until position bound args = (Some tt, s) ->
             reduce o position s = (Some tt, s) \/ s = args).
  { intros bound s [->|Hblank]%blank_until_returns; [by right|].
    left. by apply reduce_blank. }
  destruct (nonempty (lname o) && long_form argument &&
            String.eqb (from 2 argument) (lname o)) eqn:Hlong.
  - apply andb_true_iff in Hlong as [[_ Hl]%andb_true_iff _].
    rewrite (long_form_not_short _ Hl), andb_false_r in Hrun.
    destruct (blank_until _ _ args) as [[[]|] s1] eqn:Hblank; [|discriminate].
    injection Hrun as <-.
    destruct (Hdone _ _ Hblank) as [?| ->]; done.
  - cbn [ret] in Hrun.
    destruct (nonempty (sname o) && short_form argument);
      [|by injection Hrun as <-].
    destruct (result o); try discriminate;
      (destruct (String.eqb (from 1 argument) (sname o));
         [|by injection Hrun as <-]);
      destruct (Hdone _ _ Hrun) as [?| ->]; done.
Qed.

(** ** [reduce] makes progress *)

Lemma concat_lengths (sep : string) (pieces : list string) :
  (String.length (String.concat "" pieces)
   + Nat.pred (length pieces) * String.length sep
   = String.length (String.concat sep pieces))%nat.
Proof.
  induction pieces as [|p [|q pieces] IH]; [done|simpl; lia|].
  rewrite !concat_cons_cons, !length_append.
  cbn [length Nat.pred] in *. cbn [String.length]. lia.
Qed.

(** An occurrence of [old] somewhere in [s] makes the scan drop bytes. *)
Lemma remove_scan_shorter (old s : string) :
  old <> "" -> Contains s old = true ->
  (String.length (remove_scan old 0 s) < String.length s)%nat.
Proof.
  intros Hold Hc.
  destruct (remove_scan_pieces old Hold s) as (pieces & Hcat & Hfree & ->).
  assert (Hlen : String.length s = String.length (String.concat old pieces))
    by congruence.
  rewrite Hlen, <- (concat_lengths old).
  destruct pieces as [|p [|q pieces]].
  - subst s. by rewrite Contains_empty in Hc.
  - apply Forall_cons in Hfree as [Hp _]. cbn in Hcat. congruence.
  - cbn [length Nat.pred]. destruct old; [done|]. cbn [String.length]. lia.
Qed.

Lemma cluster_rest_shorter (argument short : string) :
  short <> "" -> short_form argument = true ->
  Contains (from 1 argument) short = true ->
  (String.length (cluster_rest argument short) < String.length argument)%nat.
Proof.
  intros Hn Hs Hc.
  apply short_form_shape in Hs as (b & rest & -> & _).
  cbn [from] in Hc. apply (Contains_tail "-") in Hc.
  pose proof (remove_scan_shorter _ _ Hn Hc) as Hlt.
  unfold cluster_rest, Replace_by_empty. destruct short; [done|].
  destruct (String.eqb _ "-"); [cbn [String.length]; lia|done].
Qed.

(** X5: a call of [reduce] at a token that [check] accepts, with a size of
    at least one, leaves a strictly shorter token at that position. *)
Theorem reduce_shortens_match (o : arg) (position : Z)
    (args args' : list string) (argument : string) :
  token_at args position = Some argument ->
  check o argument = Returns true ->
  1 <= size o -> position + size o <= max_int ->
  reduce o position args = (Some tt, args') ->
  exists token' : string,
    token_at args' position = Some token' /\
    (String.length token' < String.length argument)%nat.
Proof.
  intros Htok Hc Hsize Hmax Hrun. pose proof Hrun as Hrun0.
  pose proof Htok as [Hr _]%token_at_Some.
  pose proof Hr as [Hpos Hlt]%in_range_lt.
  assert (Hblank : forall s,
             blank_until position (int_add position (size o)) args = (Some tt, s) ->
             token_at s position = Some "").
  { unfold int_add.
    rewrite wrap_in_range by (unfold min_int, max_int in *; lia).
    unfold blank_until. intros s.
    replace (position + size o - position) with (size o) by lia.
    destruct (Z.to_nat (size o)) as [|n] eqn:Hn; [lia|].
    apply blank_from_head. }
  unfold check in Hc. destruct (_ || _); [discriminate|].
  unfold reduce, bind in Hrun. rewrite (load_token _ _ _ Htok) in Hrun.
  destruct (nonempty (lname o) && long_form argument &&
            String.eqb (from 2 argument) (lname o)) eqn:Hlong.
  - apply andb_true_iff in Hlong as [[_ Hl]%andb_true_iff _].
    rewrite (long_form_not_short _ Hl), andb_false_r in Hrun.
    destruct (blank_until _ _ args) as [[[]|] s1] eqn:Hb; [|discriminate].
    injection Hrun as <-. exists "". split; [by apply Hblank|].
    apply long_form_shape in Hl as (c & rest & -> & _). cbn. lia.
  - cbn [ret] in Hrun.
    destruct (nonempty (sname o) && short_form argument) eqn:Hshort;
      [|discriminate].
    apply andb_true_iff in Hshort as [Hn Hs].
    assert (Hlen : (0 < String.length argument)%nat).
    { apply short_form_shape in Hs as (b & rest & -> & _). cbn. lia. }
    destruct (result o) eqn:Hres;
      try (destruct (String.eqb (from 1 argument) (sname o)); [|discriminate];
           exists ""; split; [by apply Hblank|exact Hlen]).
    destruct (Contains (from 1 argument) (sname o)) eqn:Hcont; [|discriminate].
    rewrite (reduce_bool o position args argument) in Hrun0;
      [|by unfold is_bool; rewrite Hres|done..].
    injection Hrun0 as <-.
    exists (cluster_rest argument (sname o)). split.
    + rewrite token_at_lookup, in_range_insert, Hr.
      by apply list_lookup_insert_eq.
    + apply cluster_rest_shorter; [by apply nonempty_true|done..].
Qed.

(** ** When the process ends *)

(** X6: [check] ends the process exactly on the two help shortcuts, whatever
    the definition, and prints the usage of the owning command. *)
Theorem check_exits_iff (o : arg) (argument text : string) :
  check o argument = Exits text <->
  (argument = "-h" \/ argument = "--help") /\ text = Usage (parent o).
Proof.
  unfold check.
  destruct (String.eqb_spec argument "-h") as [->|Hh];
    [|destruct (String.eqb_spec argument "--help") as [->|Hhelp]]; cbn [orb].
  - split; [intros [= <-]; by split; [left|]|by intros [_ ->]].
  - split; [intros [= <-]; by split; [right|]|by intros [_ ->]].
  - split; [|by intros [[?|?] _]].
    repeat case_match; discriminate.
Qed.

(** X7: a token that [check] accepts starts with the marker and has more
    than one byte, and the definition has a name; positional tokens and a
    definition without names are never matched. *)
Theorem check_true_needs_marker_and_name (o : arg) (argument : string) :
  check o argument = Returns true ->
  HasPrefix argument "-" = true /\ 1 < len argument /\
  (sname o <> "" \/ lname o <> "").
Proof.
  unfold check. destruct (_ || _); [discriminate|].
  destruct (nonempty (lname o) && long_form argument &&
            String.eqb (from 2 argument) (lname o)) eqn:Hlong.
  - intros _.
    apply andb_true_iff in Hlong as [[Hn%nonempty_true Hl]%andb_true_iff _].
    apply long_form_conditions in Hl as (Hlen & Hp & _).
    split_and!; [|lia|by right].
    apply HasPrefix_app in Hp as [rest ->].
    apply HasPrefix_marker. by exists (String "-" rest).
  - destruct (nonempty (sname o) && short_form argument) eqn:Hshort;
      [|discriminate].
    intros _.
    apply andb_true_iff in Hshort as [Hn%nonempty_true Hs].
    apply short_form_conditions in Hs as (Hlen & Hp & _).
    split_and!; [done|done|by left].
Qed.

(** ** [usage] *)

Lemma name_starts_with_marker (o : arg) :
  exists rest, name o = String "-" rest.
Proof.
  unfold name. repeat case_match; eauto.
Qed.

(** X8: the rendering of [usage] opens with a bracket exactly for the
    definitions that are not marked required. *)
Theorem usage_bracket_iff_optional (o : arg) :
  HasPrefix (usage o) "[" = optional o.
Proof.
  unfold usage. destruct (optional o).
  - apply HasPrefix_app. eauto.
  - destruct (name_starts_with_marker o) as [rest ->].
    by repeat case_match.
Qed.

(** ** [parse] *)

Section MoreBinding.

Variable os_OpenFile : string -> Z -> Z -> File + error.

(** X9: [parse] ends the process exactly for the help kind, and then only
    when the duplicate check and the validator have let the call through. *)
Theorem parse_exits_iff (o : arg) (args : list string) (text : string) :
  parse os_OpenFile o args = Exits text <->
  result o = HelpSlot /\ unique o && parsed o = false /\
  validation o args = None /\ text = Usage (parent o).
Proof.
  unfold parse. split.
  - intros H. repeat case_match; simplify_eq; done.
  - intros (-> & -> & -> & ->). done.
Qed.

(** X10: a call of [parse] that returns leaves the dynamic type of the slot
    and every field of the definition but the slot value and [parsed] as
    they were, and never clears [parsed]. *)
Theorem parse_keeps_shape (o o' : arg) (args : list string)
    (e : option error) :
  parse os_OpenFile o args = Returns (e, o') ->
  same_kind (result o') (result o) = true /\
  sname o' = sname o /\ lname o' = lname o /\ size o' = size o /\
  unique o' = unique o /\ opts o' = opts o /\ selector o' = selector o /\
  fileFlag o' = fileFlag o /\ filePerm o' = filePerm o /\
  parent o' = parent o /\
  (parsed o = true -> parsed o' = true).
Proof.
  intros H.
  assert (Hrefl : same_kind (result o) (result o) = true).
  { destruct (result o); try done. apply String.eqb_refl. }
  destruct e as [e|].
  - apply parse_error_unchanged in H as ->. by split_and!.
  - unfold parse in H.
    repeat case_match; simplify_eq; by split_and!.
Qed.

Lemma one_token (args : list string) :
  (Z.of_nat (length args) <? 1) = false ->
  (1 <? Z.of_nat (length args)) = false ->
  exists token : string, args = [token].
Proof.
  intros H1%Z.ltb_ge H2%Z.ltb_ge.
  destruct args as [|token [|token' rest]]; cbn [length] in *; [lia|eauto|lia].
Qed.

(** A successful call on a kind that binds a value has passed both tests
    on the length of the slice. *)
Lemma parse_success_lengths (o o' : arg) (args : list string) :
  takes_value o = true ->
  parse os_OpenFile o args = Returns (None, o') ->
  (Z.of_nat (length args) <? 1) = false /\
  (1 <? Z.of_nat (length args)) = false.
Proof.
  unfold takes_value, parse. intros Hv H.
  destruct (unique o && parsed o); [discriminate|].
  destruct (validation o args); [discriminate|].
  destruct (result o); try discriminate Hv;
    (destruct (Z.of_nat (length args) <? 1) eqn:H1; [discriminate|]);
    (destruct (1 <? Z.of_nat (length args)) eqn:H2; [discriminate|]);
    done.
Qed.

(** X11: for the kinds that bind a value, [parse] succeeds only on a slice
    of exactly one token. *)
Theorem parse_value_needs_one_token (o o' : arg) (args : list string) :
  takes_value o = true ->
  parse os_OpenFile o args = Returns (None, o') ->
  exists token : string, args = [token].
Proof.
  intros Hv H.
  destruct (parse_success_lengths o o' args Hv H) as [H1 H2].
  by apply one_token.
Qed.

(** X12: a selector never binds a value outside its choices: a successful
    call got one token, the token is one of the choices, and it is the
    value written. *)
Theorem parse_selector_sound (o o' : arg) (args sel : list string)
    (v : string) :
  result o = StringSlot v ->
  selector o = Some sel ->
  parse os_OpenFile o args = Returns (None, o') ->
  exists token : string,
    args = [token] /\ In token sel /\ result o' = StringSlot token.
Proof.
  intros Hres Hsel H.
  destruct (parse_success_lengths o o' args) as [H1 H2];
    [by unfold takes_value; rewrite Hres|done|].
  destruct (one_token args H1 H2) as [token ->].
  exists token. split; [done|].
  unfold parse in H. rewrite Hres, Hsel in H.
  change (args0 [token]) with token in H.
  repeat case_match; simplify_eq.
  split; [by apply selects_In|done].
Qed.

(** X13: binding the tokens of a list to an accumulating definition that is
    not unique, one call per token, succeeds each time and leaves the
    tokens appended to the list in call order. *)
Theorem parse_accumulates (tokens : list string) :
  forall (o : arg) (l : list string),
    result o = StringListSlot l ->
    unique o = false ->
    (forall token : string, validation o [token] = None) ->
    exists o' : arg,
      parse_all os_OpenFile o (map (fun token => [token]) tokens) =
        Returns (replicate (length tokens) None, o') /\
      result o' = StringListSlot (l ++ tokens).
Proof.
  induction tokens as [|token tokens IH]; intros o l Hres Hu Hval.
  - exists o. by rewrite app_nil_r.
  - cbn [map parse_all].
    assert (Hstep : parse os_OpenFile o [token] =
              Returns (None, bound_to o (StringListSlot (l ++ [token])))).
    { unfold parse. by rewrite Hu, Hval, Hres. }
    rewrite Hstep.
    destruct (IH (bound_to o (StringListSlot (l ++ [token]))) (l ++ [token]))
      as (o' & Hrun & Hfinal); [done|done|done|].
    exists o'. rewrite Hrun. split; [done|].
    by rewrite Hfinal, <- app_assoc.
Qed.

End MoreBinding.

(** X14: what [os.OpenFile] returns bears on the outcome of [parse] only
    for the file kind, on a slice of one token that has passed the
    duplicate check and the validator: in every other case the outcome is
    the same whatever opening a file gives, and in that case it is what
    opening the token with the flag and permission of the definition
    gives, the error handed on unchanged or the file written. *)
Theorem parse_outcome_needs_open_only_for_file
    (os1 os2 : string -> Z -> Z -> File + error)
    (o : arg) (args : list string) :
  (is_file o = false \/ length args <> 1%nat \/
   unique o && parsed o = true \/ validation o args <> None ->
   parse os1 o args = parse os2 o args) /\
  (forall token : string,
     is_file o = true -> args = [token] ->
     unique o && parsed o = false -> validation o args = None ->
     parse os1 o args =
       match os1 token (fileFlag o) (filePerm o) with
       | inl f => Returns (None, bound_to o (FileSlot f))
       | inr err => Returns (Some err, o)
       end).
Proof.
  unfold is_file, parse. split.
  - intros H.
    destruct (unique o && parsed o); [done|].
    destruct (validation o args); [done|].
    destruct (result o); try done.
    destruct (Z.of_nat (length args) <? 1) eqn:H1; [done|].
    destruct (1 <? Z.of_nat (length args)) eqn:H2; [done|].
    destruct (one_token args H1 H2) as [token ->].
    destruct H as [H|[H|[H|H]]];
      [discriminate H | by destruct H | discriminate H | by destruct H].
  - intros token Hfile -> -> ->.
    destruct (result o); try discriminate Hfile. done.
Qed.

(** ** Slots past the end *)

(** X15: when the token at [position] matches a definition by its long name,
    or by its short name for a kind other than the Boolean flag, and the
    slice ends before the last of the [size] slots, [reduce] panics. *)
Theorem reduce_match_out_of_range (o : arg) (position : Z)
    (args : list string) (argument : string) :
  token_at args position = Some argument ->
  (lname o <> "" /\ long_form argument = true /\ from 2 argument = lname o) \/
  (is_bool o = false /\ sname o <> "" /\ short_form argument = true /\
   from 1 argument = sname o) ->
  Z.of_nat (length args) < position + size o <= max_int ->
  (reduce o position args).1 = None.
Proof.
  intros Htok [(Hn & Hl & Heq)|(Hb & Hn%nonempty_true & Hs & Heq%String.eqb_eq)] Hout.
  - by eapply reduce_long_out_of_range.
  - pose proof Htok as [[Hpos Hlt]%in_range_lt _]%token_at_Some.
    unfold reduce, bind, is_bool in *. rewrite (load_token _ _ _ Htok).
    rewrite (short_form_not_long _ Hs), andb_false_r, Hn, Hs, Heq.
    cbn [andb ret]. unfold int_add.
    rewrite wrap_in_range by (unfold min_int, max_int in *; lia).
    unfold blank_until.
    pose proof (blank_from_panics (Z.to_nat (position + size o - position))
                  position args) as Hpanic.
    destruct (result o); try discriminate; apply Hpanic; lia.
Qed.

(** ** The errors of [parse] name the option *)

Lemma Contains_behind (pre s sub : string) :
  HasPrefix s sub = true -> Contains (pre +:+ s) sub = true.
Proof.
  intros Hp. induction pre as [|c pre IH].
  - rewrite append_empty_l. destruct s; cbn [Contains]; by rewrite Hp.
  - rewrite append_cons. by apply Contains_tail.
Qed.

Lemma Contains_bracketed (pre n post : string) :
  Contains (pre +:+ "[" +:+ n +:+ "]" +:+ post) ("[" +:+ n +:+ "]") = true.
Proof.
  apply Contains_behind, HasPrefix_app. exists post.
  by rewrite !append_assoc.
Qed.

(** X16: whenever [parse] returns an error of its own making for a kind it
    knows (the validator being absent or content, and no file involved),
    the text of the error holds the name of the option in brackets. *)
Theorem parse_error_names_option
    (os_OpenFile : string -> Z -> Z -> File + error)
    (o o' : arg) (args : list string) (e : error) :
  validation o args = None ->
  is_file o = false ->
  (forall rendered, result o <> OtherSlot rendered) ->
  parse os_OpenFile o args = Returns (Some e, o') ->
  Contains e ("[" +:+ name o +:+ "]") = true.
Proof.
  intros Hval Hfile Hother H. unfold parse, is_file in *. rewrite Hval in H.
  assert (Hdup : Contains (err_duplicate o) ("[" +:+ name o +:+ "]") = true)
    by apply (Contains_bracketed "" (name o) " can only be present once").
  assert (Hnone : Contains (err_no_string o) ("[" +:+ name o +:+ "]") = true)
    by apply (Contains_bracketed "" (name o) " must be followed by a string").
  assert (Hmany : Contains (err_too_many o) ("[" +:+ name o +:+ "]") = true)
    by apply (Contains_bracketed "" (name o) " followed by too many arguments").
  assert (Hbad : forall sel,
             Contains (err_bad_value o sel) ("[" +:+ name o +:+ "]") = true).
  { intros sel.
    apply (Contains_bracketed "bad value for " (name o)
             (". Allowed values are " +:+ fmt_v sel)). }
  repeat case_match; simplify_eq; try done.
  by destruct (Hother rendered).
Qed.

(** ** Clustered flags are consumed in any order *)

Lemma Contains_byte_cons (c x : ascii) (s : string) :
  Contains (String c s) (String x "") =
    Ascii.eqb c x || Contains s (String x "").
Proof.
  cbn [Contains]. f_equal. unfold HasPrefix. cbn [String.prefix].
  destruct (Ascii.ascii_dec x c) as [->|Hne].
  - rewrite Ascii.eqb_refl. by destruct s.
  - by destruct (Ascii.eqb_spec c x).
Qed.

Lemma Contains_byte_empty (x : ascii) : Contains "" (String x "") = false.
Proof. reflexivity. Qed.

Lemma without_absent (x : ascii) (s : string) :
  Contains s (String x "") = false -> without x s = s.
Proof.
  induction s as [|c s IH]; [done|].
  rewrite Contains_byte_cons. intros [Hc Hs]%orb_false_iff.
  cbn [without]. by rewrite Hc, IH.
Qed.

Lemma Contains_without_other (x y : ascii) (s : string) :
  x <> y ->
  Contains (without x s) (String y "") = Contains s (String y "").
Proof.
  intros Hne. induction s as [|c s IH]; [done|].
  cbn [without]. rewrite Contains_byte_cons.
  destruct (Ascii.eqb_spec c x) as [->|Hc].
  - rewrite IH. by destruct (Ascii.eqb_spec x y).
  - by rewrite Contains_byte_cons, IH.
Qed.

Lemma Contains_without_absent (x y : ascii) (s : string) :
  Contains s (String y "") = false ->
  Contains (without x s) (String y "") = false.
Proof.
  induction s as [|c s IH]; [done|].
  rewrite Contains_byte_cons. intros [Hc Hs]%orb_false_iff.
  cbn [without]. destruct (Ascii.eqb c x); [by apply IH|].
  by rewrite Contains_byte_cons, Hc, IH.
Qed.

Lemma without_comm (x y : ascii) (s : string) :
  without x (without y s) = without y (without x s).
Proof.
  induction s as [|c s IH]; [done|]. cbn [without].
  destruct (Ascii.eqb c y) eqn:Hy, (Ascii.eqb c x) eqn:Hx;
    cbn [without]; rewrite ?Hx, ?Hy, ?IH; done.
Qed.

Lemma cluster_token_short_form (body : string) :
  body <> "" -> Contains body "-" = false ->
  short_form (String "-" body) = true.
Proof.
  intros Hne Hfree. destruct body as [|b rest]; [done|].
  apply short_form_shape. exists b, rest. split; [done|].
  intros ->. by rewrite Contains_byte_cons in Hfree.
Qed.

Lemma strike_cluster (x : ascii) (token : string) :
  cluster_token token -> cluster_token (strike x token).
Proof.
  intros [->|(body & -> & Hne & Hfree)]; [by left|]. cbn [strike].
  destruct (Contains body (String x "")); [|right; eauto].
  pose proof (Contains_without_absent x "-" body Hfree) as Hfree'.
  destruct (without x body) as [|c rest] eqn:Hw; [by left|].
  right. exists (String c rest). done.
Qed.

(** One flag on a cluster token. *)
Lemma reduce_flag_strikes (o : arg) (x : ascii) (position : Z)
    (args : list string) (token : string) :
  is_bool o = true -> sname o = String x "" ->
  token_at args position = Some token ->
  cluster_token token ->
  reduce o position args =
    (Some tt, <[Z.to_nat position := strike x token]> args).
Proof.
  intros Hb Hx Htok Hcl.
  pose proof Htok as [_ Hget]%token_at_Some.
  destruct Hcl as [->|(body & -> & Hne & Hfree)].
  - rewrite reduce_blank by done. cbn [strike]. by rewrite list_insert_id.
  - pose proof (cluster_token_short_form body Hne Hfree) as Hs.
    cbn [strike].
    destruct (Contains body (String x "")) eqn:Hc.
    + rewrite (reduce_bool o position args (String "-" body));
        [|done|by rewrite Hx|done|done|by rewrite Hx]. 
      do 2 f_equal. unfold cluster_rest. rewrite Hx, Replace_single_byte.
      cbn [without].
      destruct (Ascii.eqb_spec "-" x) as [<-|_]; [congruence|].
      by destruct (without x body).
    + rewrite list_insert_id by done.
      unfold reduce, bind, is_bool in *. rewrite (load_token _ _ _ Htok).
      rewrite (short_form_not_long _ Hs), andb_false_r, Hs, Hx.
      cbn [andb ret nonempty String.eqb negb from].
      destruct (result o); try discriminate. by rewrite Hc.
Qed.

Lemma strike_comm (x y : ascii) (token : string) :
  x <> y -> cluster_token token ->
  strike x (strike y token) = strike y (strike x token).
Proof.
  intros Hne [->|(body & -> & _ & _)]; [done|].
  assert (Hstep : forall a b : ascii, a <> b ->
            Contains body (String a "") = true ->
            strike b (strike a (String "-" body)) =
              if Contains body (String b "")
              then match without b (without a body) with
                   | "" => ""
                   | rest => String "-" rest
                   end
              else strike a (String "-" body)).
  { intros a b Hab Ha. cbn [strike]. rewrite Ha.
    destruct (Contains body (String b "")) eqn:Hb.
    - rewrite <- (Contains_without_other a b body Hab) in Hb.
      destruct (without a body) as [|c rest] eqn:Hw; [done|].
      cbn [strike]. by rewrite Hb.
    - destruct (without a body) as [|c rest] eqn:Hw; [done|].
      cbn [strike]. rewrite <- Hw.
      by rewrite (Contains_without_absent a b body Hb). }
  destruct (Contains body (String x "")) eqn:Hx,
           (Contains body (String y "")) eqn:Hy.
  - rewrite (Hstep x y), (Hstep y x) by done.
    by rewrite Hx, Hy, without_comm.
  - rewrite (Hstep x y) by done. rewrite Hy.
    cbn [strike]. rewrite Hy. cbn [strike]. by rewrite Hx.
  - rewrite (Hstep y x) by done. rewrite Hx.
    cbn [strike]. rewrite Hx. cbn [strike]. by rewrite Hy.
  - cbn [strike]. rewrite Hy, Hx. cbn [strike]. by rewrite Hx, Hy.
Qed.

Lemma reduce_two_flags (o1 o2 : arg) (x y : ascii) (position : Z)
    (args : list string) (token : string) :
  is_bool o1 = true -> is_bool o2 = true ->
  sname o1 = String x "" -> sname o2 = String y "" ->
  token_at args position = Some token ->
  cluster_token token ->
  (reduce o1 position ;;; reduce o2 position) args =
    (Some tt, <[Z.to_nat position := strike y (strike x token)]> args).
Proof.
  intros Hb1 Hb2 Hx Hy Htok Hcl.
  pose proof Htok as [Hr _]%token_at_Some.
  pose proof Hr as [_ Hlt]%in_range_lt.
  unfold bind. rewrite (reduce_flag_strikes o1 x _ _ token) by done.
  rewrite (reduce_flag_strikes o2 y _ _ (strike x token));
    [by rewrite list_insert_insert_eq|done|done| |by apply strike_cluster].
  rewrite token_at_lookup, in_range_insert, Hr.
  by apply list_lookup_insert_eq.
Qed.

(** X17: two Boolean flags with different one-byte short names consume their
    letters from a cluster (a marker followed by bytes other than the
    marker) in either order with the same result, and both calls return. *)
Theorem reduce_flags_commute (o1 o2 : arg) (x y : ascii) (position : Z)
    (args : list string) (body : string) :
  is_bool o1 = true -> is_bool o2 = true ->
  sname o1 = String x "" -> sname o2 = String y "" ->
  x <> y ->
  token_at args position = Some (String "-" body) ->
  body <> "" -> Contains body "-" = false ->
  exists args' : list string,
    args' = <[Z.to_nat position := strike y (strike x (String "-" body))]> args /\
    (reduce o1 position ;;; reduce o2 position) args = (Some tt, args') /\
    (reduce o2 position ;;; reduce o1 position) args = (Some tt, args').
Proof.
  intros Hb1 Hb2 Hx Hy Hne Htok Hbody Hfree.
  assert (Hcl : cluster_token (String "-" body)) by (right; eauto).
  eexists. split_and!; [done|..].
  - by apply (reduce_two_flags o1 o2 x y).
  - rewrite (reduce_two_flags o2 o1 y x _ _ (String "-" body)) by done.
    by rewrite strike_comm.
Qed.

(** ** Binding leaves matching, consumption and usage alone *)

Lemma bound_to_same_methods (o : arg) (v : slot) :
  same_kind v (result o) = true ->
  (forall argument, check (bound_to o v) argument = check o argument) /\
  (forall position args,
     reduce (bound_to o v) position args = reduce o position args) /\
  name (bound_to o v) = name o /\
  usage (bound_to o v) = usage o.
Proof.
  intros Hk. unfold check, reduce, usage, name, optional, bound_to, same_kind in *.
  cbn [result sname lname size opts selector parent].
  destruct v, (result o); try discriminate Hk; done.
Qed.

Lemma parse_returns_bound (os_OpenFile : string -> Z -> Z -> File + error)
    (o o' : arg) (args : list string) (e : option error) :
  parse os_OpenFile o args = Returns (e, o') ->
  o' = o \/ exists v, o' = bound_to o v /\ same_kind v (result o) = true.
Proof.
  unfold parse. intros H.
  repeat case_match; simplify_eq; eauto.
Qed.

(** X18: a call of [parse] that returns leaves every other method as it was:
    [check], [reduce], [name] and [usage] of the definition after the call
    agree with those of the definition before it. *)
Theorem parse_keeps_methods (os_OpenFile : string -> Z -> Z -> File + error)
    (o o' : arg) (args : list string) (e : option error) :
  parse os_OpenFile o args = Returns (e, o') ->
  (forall argument, check o' argument = check o argument) /\
  (forall position slice, reduce o' position slice = reduce o position slice) /\
  name o' = name o /\
  usage o' = usage o.
Proof.
  intros [->|(v & -> & Hk)]%parse_returns_bound; [done|].
  by apply bound_to_same_methods.
Qed.

(** The hypotheses above are needed: what a Boolean flag leaves of a
    cluster can match the flag again, here by its long name, and a marker
    inside a cluster makes the order of two flags visible. *)
Example reduce_flag_twice :
  reduce flag_quiet 0 ["-s-quiet"] = (Some tt, ["--quiet"]) /\
  reduce flag_quiet 0 ["--quiet"] = (Some tt, [""]).
Proof. split; reflexivity. Qed.

Example reduce_flags_marker_inside :
  (reduce flag_x 0 ;;; reduce flag_y 0) ["-x-y"] = (Some tt, ["--y"]) /\
  (reduce flag_y 0 ;;; reduce flag_x 0) ["-x-y"] = (Some tt, ["--"]).
Proof. split; reflexivity. Qed.

(* ================================================================== *)
(** * The further properties at sample inputs                           *)
(* ================================================================== *)

Lemma reduce_unmatched_is_noop_witness :
  reduce option_out 1 ["-x"; "file"; "rest"] =
    (Some tt, ["-x"; "file"; "rest"]).
Proof.
  apply (reduce_unmatched_is_noop option_out 1 ["-x"; "file"; "rest"] "file");
    reflexivity.
Defined.

Lemma reduce_short_blanks_witness :
  exists args' : list string,
    reduce option_out 0 ["-o"; "a.txt"; "rest"] = (Some tt, args') /\
    blanks 0 (arity option_out + 1) ["-o"; "a.txt"; "rest"] args'.
Proof.
  apply (reduce_short_blanks option_out 0 ["-o"; "a.txt"; "rest"] "-o");
    [reflexivity | discriminate | vm_compute; discriminate | reflexivity
    | reflexivity | reflexivity | reflexivity | vm_compute; discriminate].
Defined.

Lemma reduce_value_idempotent_witness :
  reduce option_out 1 ["-x"; ""; ""; "rest"] =
    (Some tt, ["-x"; ""; ""; "rest"]).
Proof.
  apply (reduce_value_idempotent option_out 1
           ["-x"; "--out"; "a.txt"; "rest"] ["-x"; ""; ""; "rest"]);
    reflexivity.
Defined.

Lemma reduce_shortens_match_witness :
  exists token' : string,
    token_at ["-yz"; "file"] 0 = Some token' /\
    (String.length token' < String.length "-xyz")%nat.
Proof.
  apply (reduce_shortens_match flag_x 0 ["-xyz"; "file"] ["-yz"; "file"] "-xyz");
    [reflexivity | reflexivity | vm_compute; discriminate
    | vm_compute; discriminate | reflexivity].
Defined.

Lemma check_true_needs_marker_and_name_witness :
  HasPrefix "--out" "-" = true /\ 1 < len "--out" /\
  (sname option_out <> "" \/ lname option_out <> "").
Proof.
  apply (check_true_needs_marker_and_name option_out "--out"). reflexivity.
Defined.

Lemma parse_keeps_shape_witness :
  same_kind (result (bound_to option_mode (StringSlot "fast")))
            (result option_mode) = true /\
  sname (bound_to option_mode (StringSlot "fast")) = sname option_mode /\
  lname (bound_to option_mode (StringSlot "fast")) = lname option_mode /\
  size (bound_to option_mode (StringSlot "fast")) = size option_mode /\
  unique (bound_to option_mode (StringSlot "fast")) = unique option_mode /\
  opts (bound_to option_mode (StringSlot "fast")) = opts option_mode /\
  selector (bound_to option_mode (StringSlot "fast")) = selector option_mode /\
  fileFlag (bound_to option_mode (StringSlot "fast")) = fileFlag option_mode /\
  filePerm (bound_to option_mode (StringSlot "fast")) = filePerm option_mode /\
  parent (bound_to option_mode (StringSlot "fast")) = parent option_mode /\
  (parsed option_mode = true ->
   parsed (bound_to option_mode (StringSlot "fast")) = true).
Proof.
  apply (parse_keeps_shape no_files option_mode
           (bound_to option_mode (StringSlot "fast")) ["fast"] None).
  reflexivity.
Defined.

Lemma parse_value_needs_one_token_witness :
  exists token : string, ["fast"] = [token].
Proof.
  apply (parse_value_needs_one_token no_files option_mode
           (bound_to option_mode (StringSlot "fast")) ["fast"]);
    reflexivity.
Defined.

Lemma parse_selector_sound_witness :
  exists token : string,
    ["slow"] = [token] /\ In token ["fast"; "slow"] /\
    result (bound_to option_mode (StringSlot "slow")) = StringSlot token.
Proof.
  apply (parse_selector_sound no_files option_mode
           (bound_to option_mode (StringSlot "slow")) ["slow"]
           ["fast"; "slow"] "");
    reflexivity.
Defined.

Lemma parse_accumulates_witness :
  exists o' : arg,
    parse_all no_files option_tags [["a"]; ["b"]] =
      Returns ([None; None], o') /\
    result o' = StringListSlot ["a"; "b"].
Proof.
  apply (parse_accumulates no_files ["a"; "b"] option_tags []);
    [reflexivity | reflexivity | intros token; reflexivity].
Defined.

Lemma parse_outcome_needs_open_only_for_file_witness :
  parse no_files option_out ["a.txt"] = parse any_file option_out ["a.txt"].
Proof.
  apply (parse_outcome_needs_open_only_for_file
           no_files any_file option_out ["a.txt"]).
  left. reflexivity.
Defined.

Lemma reduce_match_out_of_range_witness :
  (reduce option_out 1 ["-x"; "-o"]).1 = None.
Proof.
  apply (reduce_match_out_of_range option_out 1 ["-x"; "-o"] "-o").
  - reflexivity.
  - right. split; [reflexivity|]. split; [discriminate|].
    split; reflexivity.
  - split; [reflexivity | vm_compute; discriminate].
Defined.

Lemma parse_error_names_option_witness :
  Contains "bad value for [-m|--mode]. Allowed values are [fast slow]"
           ("[" +:+ name option_mode +:+ "]") = true.
Proof.
  apply (parse_error_names_option no_files option_mode option_mode ["medium"]);
    [reflexivity | reflexivity | discriminate | reflexivity].
Defined.

Lemma reduce_flags_commute_witness :
  exists args' : list string,
    args' = <[0%nat := strike "y" (strike "x" "-xy")]> ["-xy"; "file"] /\
    (reduce flag_x 0 ;;; reduce flag_y 0) ["-xy"; "file"] = (Some tt, args') /\
    (reduce flag_y 0 ;;; reduce flag_x 0) ["-xy"; "file"] = (Some tt, args').
Proof.
  apply (reduce_flags_commute flag_x flag_y "x" "y" 0 ["-xy"; "file"] "xy");
    [reflexivity | reflexivity | reflexivity | reflexivity | discriminate
    | reflexivity | discriminate | reflexivity].
Defined.

Lemma parse_keeps_methods_witness :
  (forall argument,
     check (bound_to flag_x (BoolSlot true)) argument = check flag_x argument) /\
  (forall position slice,
     reduce (bound_to flag_x (BoolSlot true)) position slice =
       reduce flag_x position slice) /\
  name (bound_to flag_x (BoolSlot true)) = name flag_x /\
  usage (bound_to flag_x (BoolSlot true)) = usage flag_x.
Proof.
  apply (parse_keeps_methods no_files flag_x
           (bound_to flag_x (BoolSlot true)) ["ignored"] None).
  reflexivity.
Defined.
